(** * Tools/merge_items.py: the catalog merge, embedded and verified

    The development follows the script function by function:
    [normalize_name], [id_to_display_name], [parse_found_in],
    [auto_recommend], [transform_item], [levenshtein_distance],
    [find_existing_item] and the computational part of [main] (phases 2
    to 4 and the final sort; downloading and file access are inputs).

    Modelling conventions.
    - A value read from a JSON file is a [json]; a Python [dict] is an
      association list in insertion order ([dict_set] overwrites in place
      and appends new keys, as Python does).
    - A Python exception is the result [Raised]; the kind of exception is
      not recorded.
    - A [str] is a [string] over the code points 0..255.  [str.title]
      leaves this alphabet at two characters only: the capitals of the
      micro sign (181) and of y with diaeresis (255) are U+039C and U+0178.
      [title] writes these two capitals with the code of their small
      letter; a capital stands at the start of a word, where [str.title]
      leaves neither small letter, so two results of [str.title] are equal
      exactly when their models are, and they have the same length.
    - Python floats are the kernel's binary64 numbers. *)

From Stdlib Require Import List Arith Bool Lia ZArith String Ascii.
From Stdlib Require Import Sorting.Sorted Sorting.Permutation.
From Corelib Require Import PrimFloat.
Import ListNotations.

Local Open Scope string_scope.
Local Open Scope list_scope.
Local Open Scope nat_scope.

#[local] Set Warnings "-register-all,-inexact-float".

(** ** Results of fallible Python code *)

Inductive result (A : Type) : Type :=
| Ok (a : A)
| Raised.

Arguments Ok {A} a.
Arguments Raised {A}.

Definition bind {A B : Type} (r : result A) (k : A -> result B) : result B :=
  match r with
  | Ok a => k a
  | Raised => Raised
  end.

Notation "x <- r ;; k" := (bind r (fun x => k))
  (at level 61, r at next level, right associativity).

(** ** JSON values and dictionaries *)

Definition dict (V : Type) : Type := list (string * V).

Inductive json : Type :=
| JNull
| JBool (b : bool)
| JInt (z : Z)
| JFloat (f : float)
| JStr (s : string)
| JList (l : list json)
| JObj (d : dict json).

(** [d.get(k)], [k in d] and [d[k] = v]. *)
Fixpoint dict_get {V : Type} (k : string) (d : dict V) : option V :=
  match d with
  | [] => None
  | (k', v) :: d' => if String.eqb k' k then Some v else dict_get k d'
  end.

Definition dict_mem {V : Type} (k : string) (d : dict V) : bool :=
  match dict_get k d with
  | Some _ => true
  | None => false
  end.

Fixpoint dict_set {V : Type} (k : string) (v : V) (d : dict V) : dict V :=
  match d with
  | [] => [(k, v)]
  | (k', v') :: d' =>
      if String.eqb k' k then (k', v) :: d' else (k', v') :: dict_set k v d'
  end.

(** [d.get(k, default)]. *)
Definition get_default {V : Type} (k : string) (default : V) (d : dict V) : V :=
  match dict_get k d with
  | Some v => v
  | None => default
  end.

(** Python truthiness, as [if x:] and [not x] test it. *)
Definition truthy (v : json) : bool :=
  match v with
  | JNull => false
  | JBool b => b
  | JInt z => negb (Z.eqb z 0)
  | JFloat f => negb (PrimFloat.eqb f 0%float)
  | JStr s => negb (String.eqb s "")
  | JList l => match l with [] => false | _ => true end
  | JObj d => match d with [] => false | _ => true end
  end.

(** [x == s] for a string literal [s], and [x in [s1, ..., sn]]. *)
Definition eq_str (v : json) (s : string) : bool :=
  match v with
  | JStr s' => String.eqb s' s
  | _ => false
  end.

Definition in_strs (v : json) (l : list string) : bool :=
  existsb (eq_str v) l.

(** [len(x)]: defined on strings, lists and dictionaries. *)
Definition py_len (v : json) : result nat :=
  match v with
  | JStr s => Ok (String.length s)
  | JList l => Ok (List.length l)
  | JObj d => Ok (List.length d)
  | _ => Raised
  end.

(** [x > 0]: defined on numbers and booleans ([True] is 1). *)
Definition gt_zero (v : json) : result bool :=
  match v with
  | JBool b => Ok b
  | JInt z => Ok (Z.ltb 0 z)
  | JFloat f => Ok (PrimFloat.ltb 0%float f)
  | _ => Raised
  end.

(** ** Characters and strings *)

Definition code (c : ascii) : nat := nat_of_ascii c.

Definition between (lo hi n : nat) : bool := (lo <=? n) && (n <=? hi).

(** Upper-case letters below code point 256: A-Z and the Latin-1 capitals
    (multiplication sign excluded). *)
Definition is_upper (c : ascii) : bool :=
  between 65 90 (code c)
  || (between 192 222 (code c) && negb (code c =? 215)).

(** Lower-case letters whose capital is again below code point 256. *)
Definition is_lower (c : ascii) : bool :=
  between 97 122 (code c)
  || (between 224 254 (code c) && negb (code c =? 247)).

Definition lower_char (c : ascii) : ascii :=
  if is_upper c then ascii_of_nat (code c + 32) else c.

Definition upper_char (c : ascii) : ascii :=
  if is_lower c then ascii_of_nat (code c - 32) else c.

(** Characters with a case: the letters above, and the four lower-case
    characters of Latin-1 without a capital below 256. *)
Definition is_cased (c : ascii) : bool :=
  is_upper c || is_lower c
  || (code c =? 170) || (code c =? 181) || (code c =? 186)
  || (code c =? 223) || (code c =? 255).

Definition is_space (c : ascii) : bool :=
  between 9 13 (code c) || between 28 32 (code c)
  || (code c =? 133) || (code c =? 160).

Fixpoint str_map (f : ascii -> ascii) (s : string) : string :=
  match s with
  | EmptyString => EmptyString
  | String c s' => String (f c) (str_map f s')
  end.

Fixpoint str_filter (p : ascii -> bool) (s : string) : string :=
  match s with
  | EmptyString => EmptyString
  | String c s' => if p c then String c (str_filter p s') else str_filter p s'
  end.

(** [s.lower()]. *)
Definition lower (s : string) : string := str_map lower_char s.

(** [re.sub(r"[^a-z0-9]", "", s)]. *)
Definition is_a_z_0_9 (c : ascii) : bool :=
  between 97 122 (code c) || between 48 57 (code c).

Definition strip_non_alnum (s : string) : string := str_filter is_a_z_0_9 s.

(** [s.replace("_", " ")]. *)
Definition replace_underscores (s : string) : string :=
  str_map (fun c => if Ascii.eqb c "_"%char then " "%char else c) s.

(** The title case of one character: its capital, and the two characters
    "Ss" for 223 (sharp s). *)
(** The title case of one character: the capital, and the two characters
    "Ss" for the sharp s (223).  At 181 and 255 the capital (U+039C,
    U+0178) is written with the code of the small letter. *)
Definition title_char (c : ascii) : string :=
  if code c =? 223 then "Ss" else String (upper_char c) EmptyString.

(** [s.title()]: a character that follows a cased one is lowered, any other
    is put in title case. *)
Fixpoint title_from (previous_is_cased : bool) (s : string) : string :=
  match s with
  | EmptyString => EmptyString
  | String c s' =>
      String.append
        (if previous_is_cased
         then String (lower_char c) EmptyString
         else title_char c)
        (title_from (is_cased c) s')
  end.

Definition title (s : string) : string := title_from false s.

(** [s.split(",")]. *)
Fixpoint split_commas (s : string) : list string :=
  match s with
  | EmptyString => [EmptyString]
  | String c s' =>
      if Ascii.eqb c ","%char
      then EmptyString :: split_commas s'
      else match split_commas s' with
           | [] => [String c EmptyString]
           | w :: ws => String c w :: ws
           end
  end.

(** [s.strip()]. *)
Fixpoint lstrip (s : string) : string :=
  match s with
  | EmptyString => EmptyString
  | String c s' => if is_space c then lstrip s' else s
  end.

Fixpoint rstrip (s : string) : string :=
  match s with
  | EmptyString => EmptyString
  | String c s' =>
      match rstrip s' with
      | EmptyString => if is_space c then EmptyString else String c EmptyString
      | r => String c r
      end
  end.

Definition strip (s : string) : string := rstrip (lstrip s).

(** ** normalize_name *)

Definition normalize_name (name : json) : result string :=
  if negb (truthy name) then Ok ""
  else match name with
       | JStr s => Ok (strip_non_alnum (lower s))
       | _ => Raised
       end.

(** ** id_to_display_name *)

Definition id_to_display_name (item_id : string) (id_to_name_map : dict string)
  : string :=
  match dict_get item_id id_to_name_map with
  | Some name => name
  | None => title (replace_underscores item_id)
  end.

(** ** parse_found_in *)

Definition parse_found_in (found_in_str : json) : result (list string) :=
  if negb (truthy found_in_str) then Ok []
  else match found_in_str with
       | JStr s =>
           Ok (map strip
                 (filter (fun loc => negb (String.eqb (strip loc) ""))
                    (split_commas s)))
       | _ => Raised
       end.

(** ** levenshtein_distance *)

(** [enumerate(s)]. *)
Definition enumerate {A : Type} (l : list A) : list (nat * A) :=
  combine (seq 0 (List.length l)) l.

Definition neq_cost (c1 c2 : ascii) : nat :=
  if Ascii.eqb c1 c2 then 0 else 1.

(** Body of the inner loop: one cell appended to [current_row]. *)
Definition inner_step (c1 : ascii) (previous_row current_row : list nat)
  (jc : nat * ascii) : list nat :=
  let '(j, c2) := jc in
  let insertions := nth (j + 1) previous_row 0 + 1 in
  let deletions := nth j current_row 0 + 1 in
  let substitutions := nth j previous_row 0 + neq_cost c1 c2 in
  current_row ++ [Nat.min insertions (Nat.min deletions substitutions)].

(** Body of the outer loop: the row of [s1[:i+1]] from the row of [s1[:i]]. *)
Definition outer_step (s2 : list ascii) (previous_row : list nat)
  (ic : nat * ascii) : list nat :=
  let '(i, c1) := ic in
  fold_left (inner_step c1 previous_row) (enumerate s2) [i + 1].

(** The function once [len(s1) >= len(s2)] holds. *)
Definition levenshtein_rows (s1 s2 : list ascii) : nat :=
  if List.length s2 =? 0 then List.length s1
  else
    let previous_row :=
      fold_left (outer_step s2) (enumerate s1) (seq 0 (List.length s2 + 1)) in
    last previous_row 0.

Definition levenshtein_distance (s1 s2 : string) : nat :=
  let l1 := list_ascii_of_string s1 in
  let l2 := list_ascii_of_string s2 in
  if List.length l1 <? List.length l2
  then levenshtein_rows l2 l1
  else levenshtein_rows l1 l2.

(** ** find_existing_item *)

Fixpoint float_of_nat (n : nat) : float :=
  match n with
  | O => 0%float
  | S n' => (float_of_nat n' + 1)%float
  end.

(** [distance <= max(3, len(normalized) * 0.2)]: [max] keeps the integer 3
    unless the product is greater. *)
Definition within_max_distance (distance : nat) (normalized : string) : bool :=
  let scaled := (float_of_nat (String.length normalized) * 0.2)%float in
  if PrimFloat.ltb 3%float scaled
  then PrimFloat.leb (float_of_nat distance) scaled
  else distance <=? 3.

(** [distance < best_distance], where [None] is [float("inf")]. *)
Definition below_best (distance : nat) (best_distance : option nat) : bool :=
  match best_distance with
  | None => true
  | Some b => distance <? b
  end.

Definition fuzzy_step (normalized : string)
  (best : option (dict json) * option nat)
  (entry : string * dict json) : option (dict json) * option nat :=
  let '(existing_name, item) := entry in
  let distance := levenshtein_distance normalized existing_name in
  if below_best distance (snd best) && within_max_distance distance normalized
  then (Some item, Some distance)
  else best.

Definition fuzzy_match (normalized : string) (index : dict (dict json))
  : option (dict json) :=
  fst (fold_left (fuzzy_step normalized) index (None, None)).

Definition find_existing_item (name : json)
  (existing_items_by_name : dict (dict json))
  : result (option (dict json)) :=
  normalized <- normalize_name name ;;
  match dict_get normalized existing_items_by_name with
  | Some item => Ok (Some item)
  | None => Ok (fuzzy_match normalized existing_items_by_name)
  end.

(** ** auto_recommend *)

(** [x and len(x) > 0]. *)
Definition has_entries (v : json) : result bool :=
  if truthy v then n <- py_len v ;; Ok (0 <? n) else Ok false.

Definition auto_recommend (item : dict json) : result string :=
  let item_type := get_default "type" (JStr "") item in
  let rarity := get_default "rarity" (JStr "Common") item in
  if in_strs item_type ["Key"; "Quest Item"] then Ok "Keep"
  else if eq_str item_type "Valuable" then Ok "Sell"
  else if in_strs rarity ["Rare"; "Epic"; "Legendary"] then Ok "Keep"
  else if in_strs item_type ["Quick Use"; "Consumable"] then Ok "Keep"
  else
    let recycles_into := get_default "recyclesInto" (JObj []) item in
    nonempty <- has_entries recycles_into ;;
    if nonempty then Ok "Recycle"
    else if in_strs item_type
              ["Weapon"; "Armor"; "Armor Plate"; "Helmet Plate"; "Attachment"]
         then Ok "Keep"
         else Ok "Either".

(** ** transform_item *)

Definition CATEGORY_MAP : dict string :=
  [ ("Basic Material", "Material");
    ("Refined Material", "Component");
    ("Consumable", "Consumable");
    ("Quick Use", "Consumable");
    ("Tool", "Material");
    ("Weapon", "Weapon");
    ("Attachment", "Attachment");
    ("Key", "Quest");
    ("Quest Item", "Quest");
    ("Armor", "Armor");
    ("Armor Plate", "Armor");
    ("Helmet Plate", "Armor");
    ("Blueprint", "Blueprint");
    ("Color", "Cosmetic");
    ("Valuable", "Valuable");
    ("Ammo", "Ammo");
    ("Grenade", "Consumable");
    ("Trap", "Consumable");
    ("Food", "Consumable");
    ("Drink", "Consumable") ].

(** [CATEGORY_MAP.get(rt_type, "Material")]: a list or a dictionary is not
    hashable. *)
Definition category_of (rt_type : json) : result json :=
  match rt_type with
  | JStr s => Ok (JStr (get_default s "Material" CATEGORY_MAP))
  | JList _ | JObj _ => Raised
  | _ => Ok (JStr "Material")
  end.

(** One turn of the loop over [recycles_into.items()]. *)
Definition recycle_step (id_to_name_map : dict string)
  (acc : result (dict json)) (entry : string * json) : result (dict json) :=
  recycle_outputs <- acc ;;
  let '(item_id, count) := entry in
  positive <- gt_zero count ;;
  if positive
  then Ok (dict_set (id_to_display_name item_id id_to_name_map) count
             recycle_outputs)
  else Ok recycle_outputs.

(** The value of [recycle_outputs] after lines 263-272; only a dictionary has
    [items()]. *)
Definition recycle_outputs_of (recycles_into : json)
  (id_to_name_map : dict string) : result json :=
  nonempty <- has_entries recycles_into ;;
  if nonempty then
    match recycles_into with
    | JObj d =>
        recycle_outputs <- fold_left (recycle_step id_to_name_map) d (Ok []) ;;
        Ok (match recycle_outputs with
            | [] => JNull
            | _ => JObj recycle_outputs
            end)
    | _ => Raised
    end
  else Ok JNull.

(** [x.get(k)]: [None] when the key is missing. *)
Definition get_or_null (k : string) (d : dict json) : json :=
  get_default k JNull d.

Section Transform.

(** [str(x)] on a value that is not a string: Python's own rendering, left
    open. *)
Variable py_repr : json -> string.

Definition py_str (v : json) : string :=
  match v with
  | JStr s => s
  | _ => py_repr v
  end.

(** [o = item.get(field, {})] followed by
    [o.get("en", "") if isinstance(o, dict) else str(o)]. *)
Definition english (field : string) (item : dict json) : json :=
  match get_default field (JObj []) item with
  | JObj d => get_default "en" (JStr "") d
  | other => JStr (py_str other)
  end.

(** The dictionary literal of lines 278-290. *)
Definition base_item (rt_item : dict json) (id_to_name_map : dict string)
  : result (dict json) :=
  let name := english "name" rt_item in
  let description := english "description" rt_item in
  let rt_type := get_default "type" (JStr "Material") rt_item in
  category <- category_of rt_type ;;
  let recycles_into := get_default "recyclesInto" (JObj []) rt_item in
  recycle_outputs <- recycle_outputs_of recycles_into id_to_name_map ;;
  found_in <- parse_found_in (get_default "foundIn" (JStr "") rt_item) ;;
  Ok [ ("name", name);
       ("category", category);
       ("rarity", get_default "rarity" (JStr "Common") rt_item);
       ("value", get_default "value" (JInt 0) rt_item);
       ("description", description);
       ("weight", get_default "weightKg" (JFloat 0.1) rt_item);
       ("stackSize", get_default "stackSize" (JInt 1) rt_item);
       ("recycleValuePercent", JNull);
       ("recycleOutputs", recycle_outputs);
       ("foundIn", match found_in with
                   | [] => JNull
                   | _ => JList (map JStr found_in)
                   end);
       ("imageUrl", get_or_null "imageFilename" rt_item) ].

(** [if existing_item:] holds for a dictionary with at least one key. *)
Definition transform_item (rt_item : dict json) (id_to_name_map : dict string)
  (existing_item : option (dict json)) : result (dict json) :=
  item <- base_item rt_item id_to_name_map ;;
  match existing_item with
  | Some ((_ :: _) as existing_item) =>
      let item := dict_set "projectUses"
                    (get_default "projectUses" (JList []) existing_item) item in
      let item := dict_set "workshopUses"
                    (get_default "workshopUses" (JList []) existing_item)
                    item in
      let item := dict_set "keepForQuests"
                    (get_default "keepForQuests" (JBool false) existing_item)
                    item in
      let item := dict_set "questUses"
                    (get_default "questUses" (JList []) existing_item) item in
      let item := dict_set "recommendation"
                    (get_default "recommendation" (JStr "Either") existing_item)
                    item in
      match get_or_null "recycleValuePercent" existing_item with
      | JNull => Ok item
      | percent => Ok (dict_set "recycleValuePercent" percent item)
      end
  | _ =>
      let item := dict_set "projectUses" (JList []) item in
      let item := dict_set "workshopUses" (JList []) item in
      let item := dict_set "keepForQuests" (JBool false) item in
      let item := dict_set "questUses" (JList []) item in
      recommendation <- auto_recommend rt_item ;;
      Ok (dict_set "recommendation" (JStr recommendation) item)
  end.

(** ** main: phases 2 to 4 and the sort *)

Record stats : Type := mk_stats { updated : nat; added : nat; skipped : nat }.

(** Phase 2: one turn of the loop that fills [id_to_name_map]; every truthy
    name is stored, whatever its type. *)
Definition id_to_name_step (id_to_name_map : dict json)
  (entry : string * dict json) : dict json :=
  let '(item_id, item) := entry in
  let name := english "name" item in
  if truthy name then dict_set item_id name id_to_name_map
  else id_to_name_map.

(** The table as [transform_item] takes it, from ids to strings.  A value
    that is not a string is the name of a raw record on which phase 4 raises
    at [normalize_name]; a run with such a table is [Raised]. *)
Fixpoint display_names (id_to_name_map : dict json) : result (dict string) :=
  match id_to_name_map with
  | [] => Ok []
  | (item_id, JStr name) :: rest =>
      names <- display_names rest ;;
      Ok ((item_id, name) :: names)
  | _ => Raised
  end.

(** Phase 3: the lookup by normalized name; [item.get] needs a dictionary. *)
Definition existing_by_name_step (acc : result (dict (dict json)))
  (item : json) : result (dict (dict json)) :=
  existing_by_name <- acc ;;
  match item with
  | JObj d =>
      norm_name <- normalize_name (get_default "name" (JStr "") d) ;;
      if negb (String.eqb norm_name "")
      then Ok (dict_set norm_name d existing_by_name)
      else Ok existing_by_name
  | _ => Raised
  end.

(** Phase 4: one turn of the merge loop. *)
Definition merge_step (id_to_name_map : dict string)
  (existing_by_name : dict (dict json))
  (acc : result (list (dict json) * stats))
  (entry : string * dict json) : result (list (dict json) * stats) :=
  state <- acc ;;
  let '(merged_items, st) := state in
  let rt_item := snd entry in
  let name := english "name" rt_item in
  if negb (truthy name)
  then Ok (merged_items, mk_stats (updated st) (added st) (skipped st + 1))
  else
    existing <- find_existing_item name existing_by_name ;;
    merged <- transform_item rt_item id_to_name_map existing ;;
    match existing with
    | Some (_ :: _) =>
        Ok (merged_items ++ [merged],
            mk_stats (updated st + 1) (added st) (skipped st))
    | _ =>
        Ok (merged_items ++ [merged],
            mk_stats (updated st) (added st + 1) (skipped st))
    end.

(** [merged_items.sort(key=lambda x: x["name"].lower())]: the keys are
    computed first, then the list is sorted stably with [<] on the keys.
    A stable sort has one possible result; insertion from the right, each
    element placed before the first key not smaller than its own, gives it. *)
Definition sort_key (x : dict json) : result string :=
  match dict_get "name" x with
  | Some (JStr s) => Ok (lower s)
  | _ => Raised
  end.

Fixpoint with_keys (l : list (dict json))
  : result (list (string * dict json)) :=
  match l with
  | [] => Ok []
  | x :: l' =>
      k <- sort_key x ;;
      rest <- with_keys l' ;;
      Ok ((k, x) :: rest)
  end.

Fixpoint insert_by_key (kx : string * dict json)
  (l : list (string * dict json)) : list (string * dict json) :=
  match l with
  | [] => [kx]
  | ky :: l' =>
      if String.ltb (fst ky) (fst kx)
      then ky :: insert_by_key kx l'
      else kx :: l
  end.

Definition sort_by_key (l : list (string * dict json))
  : list (string * dict json) :=
  fold_right insert_by_key [] l.

Definition sort_by_name (merged_items : list (dict json))
  : result (list (dict json)) :=
  keyed <- with_keys merged_items ;;
  Ok (map snd (sort_by_key keyed)).

(** [rt_items] is what [download_all_items] returned, [existing_items] what
    was read from items.json; the result is the list that is written back
    and the counters of the report. *)
Definition main (rt_items : dict (dict json)) (existing_items : list json)
  : result (list (dict json) * stats) :=
  let id_to_name_map := fold_left id_to_name_step rt_items [] in
  existing_by_name <- fold_left existing_by_name_step existing_items (Ok []) ;;
  id_to_name_map <- display_names id_to_name_map ;;
  merged <- fold_left (merge_step id_to_name_map existing_by_name) rt_items
              (Ok ([], mk_stats 0 0 0)) ;;
  let '(merged_items, st) := merged in
  merged_items <- sort_by_name merged_items ;;
  Ok (merged_items, st).

End Transform.

(** ** make_request *)

Definition MAX_RETRIES : nat := 3.
Definition RETRY_BACKOFF : nat := 2.

(** What one attempt ([urlopen], read, decode, [json.loads]) ends in: the
    decoded body, an [HTTPError] with its code, a [URLError] that is not an
    [HTTPError], or any other exception. *)
Inductive outcome : Type :=
| Response (body : json)
| HTTPError (code : Z)
| URLError
| OtherError.

(** The [for attempt in range(retries)] loop, [remaining] turns before its
    end.  [respond] gives the outcome of each attempt; [slept] collects the
    arguments of [time.sleep], in seconds.  Python's [None] is [JNull]. *)
Fixpoint request_loop (respond : nat -> outcome)
  (retries attempt remaining : nat) (slept : list nat)
  : result json * list nat :=
  match remaining with
  | O => (Ok JNull, slept)
  | S remaining' =>
      match respond attempt with
      | Response body => (Ok body, slept)
      | HTTPError code =>
          if Z.eqb code 403
          then request_loop respond retries (attempt + 1) remaining'
                 (slept ++ [RETRY_BACKOFF ^ attempt])
          else if Z.eqb code 404 then (Ok JNull, slept)
          else (Raised, slept)
      | URLError =>
          if attempt <? retries - 1
          then request_loop respond retries (attempt + 1) remaining'
                 (slept ++ [RETRY_BACKOFF ^ attempt])
          else (Raised, slept)
      | OtherError => (Raised, slept)
      end
  end.

Definition make_request (respond : nat -> outcome) (retries : nat)
  : result json * list nat :=
  request_loop respond retries 0 retries [].

(** * Vocabulary of the statements *)

(** Reference recursion: distance between two sequences read from their
    heads, with the three moves in the order the loop body takes them. *)
Fixpoint edit (a b : list ascii) : nat :=
  match a with
  | [] => List.length b
  | x :: a' =>
      (fix edit_a (b : list ascii) : nat :=
         match b with
         | [] => List.length a
         | y :: b' =>
             Nat.min (edit a' b + 1)
               (Nat.min (edit_a b' + 1) (edit a' b' + neq_cost x y))
         end) b
  end.

(** A row of the table, as the list of the values of [g] at 0 .. n-1. *)
Definition tabulate (g : nat -> nat) (n : nat) : list nat := map g (seq 0 n).

(** The cells of the row of a prefix [p] of [s1]. *)
Definition cell (p s2 : list ascii) (j : nat) : nat :=
  edit (rev p) (rev (firstn j s2)).

Definition row (p s2 : list ascii) : list nat :=
  tabulate (cell p s2) (List.length s2 + 1).

(** The distance from the query to a key, and the acceptance test of the
    fuzzy loop for that key. *)
Definition key_distance (normalized : string) (existing_name : string) : nat :=
  levenshtein_distance normalized existing_name.

Definition accepted (normalized : string) (existing_name : string) : bool :=
  within_max_distance (key_distance normalized existing_name) normalized.

(** The result of the loop, read back: nothing was accepted, or the match is
    the first entry of least distance among the accepted ones. *)
Inductive fuzzy_result (n : string) (index : dict (dict json))
  : option (dict json) -> Prop :=
| fuzzy_none :
    (forall k it, In (k, it) index -> accepted n k = false) ->
    fuzzy_result n index None
| fuzzy_some (before after : dict (dict json)) (k : string) (item : dict json) :
    index = before ++ (k, item) :: after ->
    accepted n k = true ->
    (forall k' it', In (k', it') before ->
       accepted n k' = true -> key_distance n k < key_distance n k') ->
    (forall k' it', In (k', it') after ->
       accepted n k' = true -> key_distance n k <= key_distance n k') ->
    fuzzy_result n index (Some item).

(** An item that none of the first four rules decides. *)
Definition past_rule_4 (item : dict json) : bool :=
  let item_type := get_default "type" (JStr "") item in
  let rarity := get_default "rarity" (JStr "Common") item in
  negb (in_strs item_type ["Key"; "Quest Item"])
  && negb (eq_str item_type "Valuable")
  && negb (in_strs rarity ["Rare"; "Epic"; "Legendary"])
  && negb (in_strs item_type ["Quick Use"; "Consumable"]).

Definition canonical_fields : list string :=
  ["name"; "category"; "rarity"; "value"; "description"; "weight";
   "stackSize"; "recycleOutputs"; "foundIn"; "imageUrl"].

Definition curator_fields : list string :=
  ["projectUses"; "workshopUses"; "keepForQuests"; "questUses";
   "recommendation"].

(** A local record that carries the five curator-owned fields. *)
Definition has_curator_fields (existing : dict json) : bool :=
  forallb (fun k => dict_mem k existing) curator_fields.

(** A value that [> 0] accepts. *)
Definition comparable (v : json) : bool :=
  match gt_zero v with
  | Ok _ => true
  | Raised => false
  end.

(** A raw record on which no step of [transform_item] raises: the type is not
    a list or a dictionary, [recyclesInto] is falsy or a dictionary of
    numbers, [foundIn] is falsy or a string. *)
Definition raw_well_formed (rt_item : dict json) : bool :=
  match get_default "type" (JStr "Material") rt_item with
  | JList _ | JObj _ => false
  | _ => true
  end
  && match get_default "recyclesInto" (JObj []) rt_item with
     | JObj m => forallb (fun e => comparable (snd e)) m
     | v => negb (truthy v)
     end
  && match get_default "foundIn" (JStr "") rt_item with
     | JStr _ => true
     | v => negb (truthy v)
     end.

(** Keys in ascending order. *)
Definition key_le (kx ky : string * dict json) : Prop :=
  String.leb (fst kx) (fst ky) = true.

Definition output_fields : list string :=
  ["name"; "category"; "rarity"; "value"; "description"; "weight";
   "stackSize"; "recycleValuePercent"; "recycleOutputs"; "foundIn";
   "imageUrl"; "projectUses"; "workshopUses"; "keepForQuests"; "questUses";
   "recommendation"].

Definition categories : list string :=
  ["Material"; "Component"; "Consumable"; "Weapon"; "Attachment"; "Quest";
   "Armor"; "Blueprint"; "Cosmetic"; "Valuable"; "Ammo"].

(** Whether a record sorts under the key [k]. *)
Definition has_sort_key (k : string) (x : dict json) : bool :=
  match sort_key x with
  | Ok k' => String.eqb k' k
  | Raised => false
  end.

(** An attempt after which the loop goes on: a rate limit (403) or a network
    error. *)
Definition transient (o : outcome) : bool :=
  match o with
  | HTTPError code => Z.eqb code 403
  | URLError => true
  | _ => false
  end.

(** The pauses before attempt [k]: 1, 2, 4, ... seconds. *)
Definition backoff (k : nat) : list nat :=
  map (fun attempt => RETRY_BACKOFF ^ attempt) (seq 0 k).

(** Code point 223, the sharp s. *)
Definition sharp_s : ascii := ascii_of_nat 223.

(** The threshold test of [find_existing_item] as a function of the length
    of the normalized name. *)
Definition max_distance_test (distance len : nat) : bool :=
  let scaled := (float_of_nat len * 0.2)%float in
  if PrimFloat.ltb 3%float scaled
  then PrimFloat.leb (float_of_nat distance) scaled
  else distance <=? 3.

(** Whether the binary64 test and the comparison [distance <= max(3, len / 5)]
    in exact arithmetic, written [5 * distance <= max(15, len)], agree for
    all distances and lengths up to [bound]. *)
Definition threshold_agrees (bound : nat) : bool :=
  forallb
    (fun len =>
       forallb
         (fun distance =>
            Bool.eqb (max_distance_test distance len)
              (5 * distance <=? Nat.max 15 len))
         (seq 0 (S bound)))
    (seq 0 (S bound)).

(** Sample records used to instantiate the statements. *)

Definition iron_plate : dict json := [("name", JStr "Iron Plate")].
Definition iron_plate_x : dict json := [("name", JStr "Iron Plate X")].

Definition plate_a : dict json := [("name", JStr "Iron Plate A")].
Definition plate_b : dict json := [("name", JStr "Iron Plate B")].
Definition plate_cd : dict json := [("name", JStr "Iron Plate CD")].

Definition medium_shield : dict json := [("name", JStr "Medium Shield")].

Definition axe : dict json :=
  [("name", JStr "Axe"); ("projectUses", JList [JStr "Workshop A"]);
   ("recommendation", JStr "Keep")].

Definition zero_count_item : dict json :=
  [("name", JObj [("en", JStr "Junk")]); ("type", JStr "Basic Material");
   ("rarity", JStr "Common"); ("recyclesInto", JObj [("scrap", JInt 0)])].

Definition named (n : string) : dict json := [("name", JObj [("en", JStr n)])].

Definition three_items : dict (dict json) :=
  [("zed_core", named "Zed Core"); ("apple_seed", named "Apple Seed");
   ("mango", named "mango")].

Definition curated_junk : dict json :=
  [("name", JStr "Junk"); ("projectUses", JList [JStr "Workshop A"]);
   ("workshopUses", JList []); ("keepForQuests", JBool false);
   ("questUses", JList []); ("recommendation", JStr "Keep");
   ("recycleValuePercent", JInt 37)].

Definition legendary_junk : dict json :=
  [("name", JObj [("en", JStr "Junk")]); ("type", JStr "Valuable");
   ("rarity", JStr "Legendary");
   ("recyclesInto", JObj [("metal_parts", JInt 2); ("scrap", JInt 0)])].

Definition flaky (attempt : nat) : outcome :=
  match attempt with
  | 0 => URLError
  | 1 => HTTPError 403
  | _ => Response (JList [])
  end.

(** * Edit distance: the rolling rows compute the recursive distance *)

Lemma edit_nil_r (a : list ascii) : edit a [] = List.length a.
Proof. destruct a; reflexivity. Qed.

Lemma edit_cons (x y : ascii) (a b : list ascii) :
  edit (x :: a) (y :: b) =
  Nat.min (edit a (y :: b) + 1)
    (Nat.min (edit (x :: a) b + 1) (edit a b + neq_cost x y)).
Proof. reflexivity. Qed.

Lemma neq_cost_sym (x y : ascii) : neq_cost x y = neq_cost y x.
Proof. unfold neq_cost. now rewrite Ascii.eqb_sym. Qed.

Lemma neq_cost_refl (x : ascii) : neq_cost x x = 0.
Proof. unfold neq_cost. now rewrite Ascii.eqb_refl. Qed.

Lemma edit_sym (a b : list ascii) : edit a b = edit b a.
Proof.
  revert b. induction a as [|x a IHa]; intros b.
  - now rewrite edit_nil_r.
  - induction b as [|y b IHb].
    + now rewrite edit_nil_r.
    + rewrite !edit_cons, IHb, (IHa (y :: b)), (IHa b), (neq_cost_sym x y).
      lia.
Qed.

Lemma edit_refl (a : list ascii) : edit a a = 0.
Proof.
  induction a as [|x a IH]; [reflexivity|].
  rewrite edit_cons, IH, neq_cost_refl. lia.
Qed.

Lemma edit_cons_cons_le (x y : ascii) (a b : list ascii) :
  edit (x :: a) (y :: b) <= edit a b + neq_cost x y.
Proof. rewrite edit_cons. lia. Qed.

Lemma edit_le_max (a b : list ascii) :
  edit a b <= Nat.max (List.length a) (List.length b).
Proof.
  revert b. induction a as [|x a IH]; intros [|y b].
  - cbn. lia.
  - cbn. lia.
  - rewrite edit_nil_r. lia.
  - pose proof (edit_cons_cons_le x y a b). pose proof (IH b).
    assert (neq_cost x y <= 1)
      by (unfold neq_cost; destruct (Ascii.eqb x y); lia).
    cbn [List.length]. lia.
Qed.

Lemma tabulate_nth (g : nat -> nat) (n j : nat) :
  j < n -> nth j (tabulate g n) 0 = g j.
Proof.
  intros Hj. unfold tabulate.
  rewrite (nth_indep _ 0 (g 0)) by now rewrite length_map, length_seq.
  rewrite map_nth, seq_nth; auto.
Qed.

Lemma tabulate_S (g : nat -> nat) (n : nat) :
  tabulate g (S n) = tabulate g n ++ [g n].
Proof. unfold tabulate. now rewrite seq_S, map_app. Qed.

Lemma tabulate_last (g : nat -> nat) (n : nat) :
  last (tabulate g (S n)) 0 = g n.
Proof. rewrite tabulate_S. apply last_last. Qed.

Lemma tabulate_seq (n : nat) : seq 0 n = tabulate (fun j => j) n.
Proof. unfold tabulate. now rewrite map_id. Qed.

(** The inner loop extends the current row cell by cell. *)
Lemma inner_loop_spec (c1 : ascii) (f g : nat -> nat) (previous_row : list nat)
  (todo : list ascii) :
  forall k,
    (forall j, j <= k + List.length todo -> nth j previous_row 0 = f j) ->
    (forall j c2, nth_error todo j = Some c2 ->
       g (k + j + 1) =
       Nat.min (f (k + j + 1) + 1)
         (Nat.min (g (k + j) + 1) (f (k + j) + neq_cost c1 c2))) ->
    fold_left (inner_step c1 previous_row)
      (combine (seq k (List.length todo)) todo) (tabulate g (k + 1))
    = tabulate g (k + List.length todo + 1).
Proof.
  induction todo as [|c2 todo IH]; intros k Hprev Hg.
  - simpl. now rewrite Nat.add_0_r.
  - cbn [List.length seq combine fold_left]. unfold inner_step at 2.
    rewrite !Hprev by (cbn [List.length]; lia).
    rewrite tabulate_nth by lia.
    specialize (Hg 0 c2 eq_refl) as Hcell. rewrite Nat.add_0_r in Hcell.
    rewrite <- Hcell.
    replace (tabulate g (k + 1) ++ [g (k + 1)]) with (tabulate g (S k + 1))
      by (rewrite (Nat.add_comm (S k) 1); cbn [Nat.add];
          rewrite tabulate_S; now rewrite (Nat.add_comm k 1)).
    rewrite IH.
    + f_equal. cbn [List.length]. lia.
    + intros j Hj. apply Hprev. cbn [List.length]. lia.
    + intros j c Hj. specialize (Hg (S j) c Hj).
      replace (S k + j + 1) with (k + S j + 1) by lia.
      replace (S k + j) with (k + S j) by lia. exact Hg.
Qed.

Lemma firstn_snoc (s2 : list ascii) (j : nat) (c2 : ascii) :
  nth_error s2 j = Some c2 -> firstn (j + 1) s2 = firstn j s2 ++ [c2].
Proof.
  revert j. induction s2 as [|y s2 IH]; intros [|j] H; try discriminate.
  - now inversion H.
  - cbn in *. now rewrite (IH j H).
Qed.

Lemma outer_step_row (p s2 : list ascii) (c1 : ascii) :
  outer_step s2 (row p s2) (List.length p, c1) = row (p ++ [c1]) s2.
Proof.
  unfold outer_step, enumerate, row.
  replace [List.length p + 1] with (tabulate (cell (p ++ [c1]) s2) (0 + 1)).
  - rewrite (inner_loop_spec c1 (cell p s2) (cell (p ++ [c1]) s2)); auto.
    + intros j Hj. apply tabulate_nth. lia.
    + intros j c2 Hj. cbn [Nat.add]. unfold cell.
      rewrite (firstn_snoc _ _ _ Hj), !rev_app_distr. cbn [rev app].
      apply edit_cons.
  - cbn. unfold cell. cbn.
    rewrite edit_nil_r, length_rev, length_app. reflexivity.
Qed.

Lemma outer_loop_row (s2 todo : list ascii) :
  forall p,
    fold_left (outer_step s2)
      (combine (seq (List.length p) (List.length todo)) todo) (row p s2)
    = row (p ++ todo) s2.
Proof.
  induction todo as [|c1 todo IH]; intros p.
  - cbn. now rewrite app_nil_r.
  - cbn [List.length seq combine fold_left]. rewrite outer_step_row.
    replace (S (List.length p)) with (List.length (p ++ [c1]))
      by (rewrite length_app; cbn; lia).
    rewrite IH, <- app_assoc. reflexivity.
Qed.

Lemma row_nil (s2 : list ascii) : seq 0 (List.length s2 + 1) = row [] s2.
Proof.
  rewrite tabulate_seq. unfold row, tabulate. apply map_ext_in.
  intros j Hj. apply in_seq in Hj. unfold cell. cbn [rev edit].
  rewrite length_rev, length_firstn. lia.
Qed.

Lemma levenshtein_rows_edit (s1 s2 : list ascii) :
  levenshtein_rows s1 s2 = edit (rev s1) (rev s2).
Proof.
  unfold levenshtein_rows. destruct (List.length s2 =? 0) eqn:E.
  - apply Nat.eqb_eq in E. apply length_zero_iff_nil in E. subst s2.
    cbn [rev]. now rewrite edit_nil_r, length_rev.
  - unfold enumerate. rewrite row_nil.
    pose proof (outer_loop_row s2 s1 []) as Hrows.
    cbn [List.length app] in Hrows. rewrite Hrows. unfold row.
    rewrite Nat.add_1_r, tabulate_last. unfold cell.
    now rewrite firstn_all.
Qed.

Lemma levenshtein_distance_edit (s1 s2 : string) :
  levenshtein_distance s1 s2 =
  edit (rev (list_ascii_of_string s1)) (rev (list_ascii_of_string s2)).
Proof.
  unfold levenshtein_distance.
  destruct (_ <? _); rewrite levenshtein_rows_edit; auto using edit_sym.
Qed.

Lemma length_list_ascii (s : string) :
  List.length (list_ascii_of_string s) = String.length s.
Proof. induction s; cbn; auto. Qed.

(** C9: [levenshtein_distance] gives 0 on equal arguments, is symmetric, and
    against the empty string gives the length of the other argument; in
    particular the distance from the empty string to "abc" is 3. *)
Theorem levenshtein_distance_laws (a b : string) :
  levenshtein_distance a a = 0
  /\ levenshtein_distance a b = levenshtein_distance b a
  /\ levenshtein_distance "" b = String.length b
  /\ levenshtein_distance a "" = String.length a
  /\ levenshtein_distance "" "abc" = 3.
Proof.
  rewrite !levenshtein_distance_edit. cbn [list_ascii_of_string rev].
  repeat split.
  - apply edit_refl.
  - apply edit_sym.
  - cbn [edit]. now rewrite length_rev, length_list_ascii.
  - now rewrite edit_nil_r, length_rev, length_list_ascii.
Qed.

(** * find_existing_item *)

Lemma fuzzy_step_unfold (n : string) (best : option (dict json) * option nat)
  (k : string) (item : dict json) :
  fuzzy_step n best (k, item) =
  if below_best (key_distance n k) (snd best) && accepted n k
  then (Some item, Some (key_distance n k))
  else best.
Proof. reflexivity. Qed.

(** Entries that are rejected, or not closer than the current best, leave
    the state of the loop unchanged. *)
Lemma fuzzy_fold_keeps (n : string) (item : dict json) (d : nat)
  (after : dict (dict json)) :
  (forall k' it', In (k', it') after ->
     accepted n k' = true -> d <= key_distance n k') ->
  fold_left (fuzzy_step n) after (Some item, Some d) = (Some item, Some d).
Proof.
  induction after as [|[k' it'] after IH]; intros H; [reflexivity|].
  cbn [fold_left]. rewrite fuzzy_step_unfold. cbn [snd below_best].
  destruct (accepted n k') eqn:Hacc.
  - assert (d <= key_distance n k')
      by (eapply H; [left; reflexivity | exact Hacc]).
    replace (key_distance n k' <? d) with false
      by (symmetry; apply Nat.ltb_ge; assumption).
    cbn [andb]. apply IH. intros; eapply H; [right|]; eauto.
  - rewrite andb_false_r. apply IH. intros; eapply H; [right|]; eauto.
Qed.

(** What the state of the loop is after a run over entries all of which are
    rejected or farther than [d]. *)
Lemma fuzzy_fold_farther (n : string) (d : nat) (before : dict (dict json)) :
  forall best,
    below_best d (snd best) = true ->
    (forall k' it', In (k', it') before ->
       accepted n k' = true -> d < key_distance n k') ->
    below_best d (snd (fold_left (fuzzy_step n) before best)) = true.
Proof.
  induction before as [|[k' it'] before IH]; intros best Hb H; [exact Hb|].
  cbn [fold_left]. apply IH.
  - rewrite fuzzy_step_unfold.
    destruct (below_best _ _ && accepted n k') eqn:E; [|exact Hb].
    apply andb_prop in E as [_ Hacc]. cbn [snd below_best].
    apply Nat.ltb_lt. eapply H; [left; reflexivity | exact Hacc].
  - intros; eapply H; [right|]; eauto.
Qed.

Lemma fuzzy_match_first_minimum (n : string) (before after : dict (dict json))
  (k : string) (item : dict json) :
  accepted n k = true ->
  (forall k' it', In (k', it') before ->
     accepted n k' = true -> key_distance n k < key_distance n k') ->
  (forall k' it', In (k', it') after ->
     accepted n k' = true -> key_distance n k <= key_distance n k') ->
  fuzzy_match n (before ++ (k, item) :: after) = Some item.
Proof.
  intros Hacc Hbefore Hafter. unfold fuzzy_match.
  rewrite fold_left_app. cbn [fold_left].
  pose proof (fuzzy_fold_farther n _ before (None, None) eq_refl Hbefore) as Hb.
  rewrite fuzzy_step_unfold, Hb, Hacc. cbn [andb].
  now rewrite fuzzy_fold_keeps.
Qed.

Lemma fuzzy_fold_result (n : string) (index : dict (dict json)) :
  match fold_left (fuzzy_step n) index (None, None) with
  | (None, None) => forall k it, In (k, it) index -> accepted n k = false
  | (Some item, Some d) =>
      exists before k after,
        index = before ++ (k, item) :: after
        /\ accepted n k = true
        /\ key_distance n k = d
        /\ (forall k' it', In (k', it') before ->
              accepted n k' = true -> d < key_distance n k')
        /\ (forall k' it', In (k', it') after ->
              accepted n k' = true -> d <= key_distance n k')
  | _ => False
  end.
Proof.
  induction index as [|[kx itx] index IH] using rev_ind.
  - cbn. intros ? ? [].
  - rewrite fold_left_app. cbn [fold_left].
    destruct (fold_left (fuzzy_step n) index (None, None)) as [[item|] [d|]];
      try contradiction; rewrite fuzzy_step_unfold; cbn [snd below_best].
    + destruct IH as (before & k & after & -> & Hacc & Hd & Hbefore & Hafter).
      destruct (accepted n kx) eqn:Hx;
        [destruct (key_distance n kx <? d) eqn:Hlt|]; cbn [andb].
      * (* a strictly closer entry replaces the best *)
        apply Nat.ltb_lt in Hlt.
        exists (before ++ (k, item) :: after), kx, [].
        repeat split; auto; [|intros ? ? []].
        intros k' it' Hin Hacc'. apply in_app_or in Hin as [Hin|[Heq|Hin]].
        -- specialize (Hbefore _ _ Hin Hacc'). lia.
        -- inversion Heq; subst. lia.
        -- specialize (Hafter _ _ Hin Hacc'). lia.
      * apply Nat.ltb_ge in Hlt.
        exists before, k, (after ++ [(kx, itx)]).
        rewrite <- app_assoc. repeat split; auto.
        intros k' it' Hin Hacc'. apply in_app_or in Hin as [Hin|[Heq|[]]].
        -- now apply (Hafter _ _ Hin).
        -- now inversion Heq; subst.
      * rewrite andb_false_r.
        exists before, k, (after ++ [(kx, itx)]).
        rewrite <- app_assoc. repeat split; auto.
        intros k' it' Hin Hacc'. apply in_app_or in Hin as [Hin|[Heq|[]]].
        -- now apply (Hafter _ _ Hin).
        -- inversion Heq; subst. congruence.
    + destruct (accepted n kx) eqn:Hx; cbn [andb].
      * exists index, kx, []. repeat split; auto; [|intros ? ? []].
        intros k' it' Hin Hacc'. rewrite (IH _ _ Hin) in Hacc'. discriminate.
      * intros k it Hin. apply in_app_or in Hin as [Hin|[Heq|[]]].
        -- now apply (IH _ _ Hin).
        -- now inversion Heq; subst.
Qed.

Lemma fuzzy_match_result (n : string) (index : dict (dict json)) :
  fuzzy_result n index (fuzzy_match n index).
Proof.
  unfold fuzzy_match. pose proof (fuzzy_fold_result n index) as H.
  destruct (fold_left (fuzzy_step n) index (None, None)) as [[item|] [d|]];
    try contradiction; cbn [fst].
  - destruct H as (before & k & after & Hidx & Hacc & Hd & Hbefore & Hafter).
    subst d. now apply (fuzzy_some n index before after k item).
  - now apply fuzzy_none.
Qed.

Lemma find_existing_item_fuzzy (name : json) (n : string)
  (index : dict (dict json)) :
  normalize_name name = Ok n ->
  dict_get n index = None ->
  find_existing_item name index = Ok (fuzzy_match n index).
Proof.
  intros Hn Hget. unfold find_existing_item. rewrite Hn. cbn [bind].
  now rewrite Hget.
Qed.

(** C7: a name whose normalized key is in the index gets that entry, whatever
    else the index holds; the fuzzy loop plays no part in the result. *)
Theorem find_existing_item_exact (name : json) (n : string)
  (index : dict (dict json)) (item : dict json) :
  normalize_name name = Ok n ->
  dict_get n index = Some item ->
  find_existing_item name index = Ok (Some item).
Proof.
  intros Hn Hget. unfold find_existing_item. rewrite Hn. cbn [bind].
  now rewrite Hget.
Qed.

Lemma find_existing_item_exact_witness :
  normalize_name (JStr "Iron Plate") = Ok "ironplate"
  /\ accepted "ironplate" "ironplatex" = true
  /\ find_existing_item (JStr "Iron Plate")
       [("ironplatex", iron_plate_x); ("ironplate", iron_plate)]
     = Ok (Some iron_plate).
Proof.
  split; [reflexivity|]. split; [reflexivity|].
  apply (find_existing_item_exact (JStr "Iron Plate") "ironplate"
           [("ironplatex", iron_plate_x); ("ironplate", iron_plate)] iron_plate);
    reflexivity.
Defined.

(** C5: without an exact match, the entry returned is the first one of least
    distance among the accepted entries: every accepted entry before it is
    strictly farther, and no entry after it, however equal its distance,
    takes its place. *)
Theorem find_existing_item_first_minimum (name : json) (n : string)
  (before after : dict (dict json)) (k : string) (item : dict json) :
  normalize_name name = Ok n ->
  dict_get n (before ++ (k, item) :: after) = None ->
  accepted n k = true ->
  (forall k' it', In (k', it') before ->
     accepted n k' = true -> key_distance n k < key_distance n k') ->
  (forall k' it', In (k', it') after ->
     accepted n k' = true -> key_distance n k <= key_distance n k') ->
  find_existing_item name (before ++ (k, item) :: after) = Ok (Some item).
Proof.
  intros Hn Hget Hacc Hbefore Hafter.
  rewrite (find_existing_item_fuzzy _ _ _ Hn Hget).
  now rewrite fuzzy_match_first_minimum.
Qed.

Lemma find_existing_item_first_minimum_witness :
  key_distance "ironplate" "ironplatecd" = 2
  /\ key_distance "ironplate" "ironplatea" = 1
  /\ key_distance "ironplate" "ironplateb" = 1
  /\ find_existing_item (JStr "Iron Plate")
       ([("ironplatecd", plate_cd)]
          ++ ("ironplatea", plate_a) :: [("ironplateb", plate_b)])
     = Ok (Some plate_a).
Proof.
  repeat (split; [reflexivity|]).
  apply (find_existing_item_first_minimum (JStr "Iron Plate") "ironplate");
    try reflexivity.
  - intros k' it' [Heq|[]] _. inversion Heq. vm_compute. lia.
  - intros k' it' [Heq|[]] _. inversion Heq. vm_compute. lia.
Defined.

Lemma within_max_distance_10 (n : string) (d : nat) :
  String.length n = 10 -> within_max_distance d n = (d <=? 3).
Proof.
  intros Hlen. unfold within_max_distance. rewrite Hlen.
  replace (PrimFloat.ltb 3 (float_of_nat 10 * 0.2)) with false; reflexivity.
Qed.

Lemma fuzzy_result_in (n : string) (index : dict (dict json))
  (item : dict json) :
  fuzzy_result n index (Some item) ->
  exists before k after,
    index = before ++ (k, item) :: after /\ accepted n k = true
    /\ forall k' it', In (k', it') index ->
         accepted n k' = true -> key_distance n k <= key_distance n k'.
Proof.
  intros H. inversion H as [|before after k it Hidx Hacc Hbefore Hafter]; subst.
  exists before, k, after. repeat split; auto.
  intros k' it' Hin Hacc'. apply in_app_or in Hin as [Hin|[Heq|Hin]].
  - apply Nat.lt_le_incl. eauto.
  - inversion Heq; subst. lia.
  - eauto.
Qed.

Lemma threshold_agrees_spec (bound len distance : nat) :
  threshold_agrees bound = true ->
  len <= bound -> distance <= bound ->
  max_distance_test distance len = (5 * distance <=? Nat.max 15 len).
Proof.
  intros Hall Hlen Hd. unfold threshold_agrees in Hall.
  rewrite forallb_forall in Hall.
  assert (Hin : forall x, x <= bound -> In x (seq 0 (S bound)))
    by (intros x Hx; apply in_seq; lia).
  specialize (Hall len (Hin _ Hlen)). rewrite forallb_forall in Hall.
  specialize (Hall distance (Hin _ Hd)). now apply Bool.eqb_prop in Hall.
Qed.

Lemma threshold_agrees_256 : threshold_agrees 256 = true.
Proof. vm_compute. reflexivity. Qed.

Lemma within_max_distance_length (n : string) (d : nat) :
  within_max_distance d n = max_distance_test d (String.length n).
Proof. reflexivity. Qed.

(** Up to 256 characters the binary64 test is the comparison of exact
    arithmetic: a fifth of the length, and never less than 3. *)
Lemma within_max_distance_exact (n : string) (d : nat) :
  String.length n <= 256 -> d <= 256 ->
  (within_max_distance d n = true <-> 5 * d <= Nat.max 15 (String.length n)).
Proof.
  intros Hn Hd. rewrite within_max_distance_length.
  rewrite (threshold_agrees_spec 256 _ _ threshold_agrees_256 Hn Hd).
  apply Nat.leb_le.
Qed.

Lemma levenshtein_distance_le_256 (n k : string) :
  String.length n <= 256 -> String.length k <= 256 ->
  levenshtein_distance n k <= 256.
Proof.
  intros Hn Hk. rewrite levenshtein_distance_edit.
  pose proof (edit_le_max (rev (list_ascii_of_string n))
                (rev (list_ascii_of_string k))) as H.
  rewrite !length_rev, !length_list_ascii in H. lia.
Qed.

(** C4: without an exact match, the entry returned sits at a key whose
    distance passed [distance <= max(3, 0.2 * len(normalized))].  For a
    normalized name of length 10 the test is [distance <= 3]: an entry at
    distance 2 with no closer key in the index makes the search return an
    entry at distance 2; a key at distance 4 or more never replaces the
    current best, and an index of such keys alone gives no match.  For
    names and keys of at most 256 characters the test is the comparison of
    exact arithmetic, [5 * distance <= max(15, len(normalized))]: the key of
    the entry returned satisfies it, and a key that satisfies it makes the
    search return an entry. *)
Theorem find_existing_item_threshold (name : json) (n : string)
  (index : dict (dict json)) :
  normalize_name name = Ok n ->
  dict_get n index = None ->
  (forall item,
      find_existing_item name index = Ok (Some item) ->
      exists before k after,
        index = before ++ (k, item) :: after
        /\ within_max_distance (levenshtein_distance n k) n = true)
  /\ (String.length n = 10 ->
      (forall d, within_max_distance d n = true <-> d <= 3)
      /\ (forall k item,
             In (k, item) index ->
             levenshtein_distance n k = 2 ->
             (forall k' it', In (k', it') index ->
                2 <= levenshtein_distance n k') ->
             exists before k0 item0 after,
               index = before ++ (k0, item0) :: after
               /\ levenshtein_distance n k0 = 2
               /\ find_existing_item name index = Ok (Some item0))
      /\ (forall best k item,
             4 <= levenshtein_distance n k ->
             fuzzy_step n best (k, item) = best)
      /\ ((forall k it, In (k, it) index -> 4 <= levenshtein_distance n k) ->
          find_existing_item name index = Ok None))
  /\ (String.length n <= 256 ->
      (forall d,
          d <= 256 ->
          (within_max_distance d n = true
           <-> 5 * d <= Nat.max 15 (String.length n)))
      /\ (forall item,
             find_existing_item name index = Ok (Some item) ->
             exists before k after,
               index = before ++ (k, item) :: after
               /\ (String.length k <= 256 ->
                   5 * levenshtein_distance n k
                   <= Nat.max 15 (String.length n)))
      /\ (forall k item,
             In (k, item) index ->
             String.length k <= 256 ->
             5 * levenshtein_distance n k <= Nat.max 15 (String.length n) ->
             exists item', find_existing_item name index = Ok (Some item'))).
Proof.
  intros Hn Hget. rewrite (find_existing_item_fuzzy _ _ _ Hn Hget).
  pose proof (fuzzy_match_result n index) as Hres.
  split; [|split].
  - intros item Hfind. inversion Hfind as [Hitem]. rewrite Hitem in Hres.
    apply fuzzy_result_in in Hres as (before & k & after & Hidx & Hacc & _).
    now exists before, k, after.
  - intros Hlen.
    assert (Hthr : forall d, within_max_distance d n = true <-> d <= 3).
    { intros d. rewrite (within_max_distance_10 _ _ Hlen). apply Nat.leb_le. }
    assert (Hfar : forall best k item,
               4 <= levenshtein_distance n k ->
               fuzzy_step n best (k, item) = best).
    { intros best k item Hd. rewrite fuzzy_step_unfold.
      replace (accepted n k) with false; [now rewrite andb_false_r|].
      symmetry. apply Bool.not_true_iff_false. unfold accepted, key_distance.
      rewrite Hthr. lia. }
    repeat split; try apply Hthr; auto.
    + intros k item Hin Hd Hclosest.
      assert (Hacc : accepted n k = true)
        by (unfold accepted, key_distance; rewrite Hd; apply Hthr; lia).
      destruct (fuzzy_match n index) as [item0|].
      * apply fuzzy_result_in in Hres
          as (before & k0 & after & Hidx & Hacc0 & Hmin).
        exists before, k0, item0, after. repeat split; auto.
        specialize (Hmin _ _ Hin Hacc). unfold key_distance in Hmin.
        assert (In (k0, item0) index)
          by (rewrite Hidx; apply in_or_app; right; left; reflexivity).
        specialize (Hclosest _ _ H). lia.
      * inversion Hres as [Hnone|]. rewrite (Hnone _ _ Hin) in Hacc.
        discriminate.
    + intros Hall. destruct (fuzzy_match n index) as [item0|]; [|reflexivity].
      apply fuzzy_result_in in Hres as (before & k0 & after & Hidx & Hacc0 & _).
      assert (In (k0, item0) index)
        by (rewrite Hidx; apply in_or_app; right; left; reflexivity).
      specialize (Hall _ _ H). unfold accepted, key_distance in Hacc0.
      apply Hthr in Hacc0. lia.
  - intros Hlen.
    assert (Hexact : forall k,
               String.length k <= 256 ->
               (accepted n k = true
                <-> 5 * levenshtein_distance n k
                    <= Nat.max 15 (String.length n))).
    { intros k Hk. unfold accepted, key_distance.
      apply within_max_distance_exact; [assumption|].
      now apply levenshtein_distance_le_256. }
    split; [|split].
    + intros d Hd. now apply within_max_distance_exact.
    + intros item Hfind. inversion Hfind as [Hitem]. rewrite Hitem in Hres.
      apply fuzzy_result_in in Hres as (before & k & after & Hidx & Hacc & _).
      exists before, k, after. split; [assumption|].
      intros Hk. now apply Hexact.
    + intros k item Hin Hk Hd. apply Hexact in Hd; [|assumption].
      destruct (fuzzy_match n index) as [item'|]; [eauto|].
      inversion Hres as [Hnone|]. rewrite (Hnone _ _ Hin) in Hd.
      discriminate.
Qed.

Lemma find_existing_item_threshold_witness :
  levenshtein_distance "metalparts" "metalpartsxl" = 2
  /\ find_existing_item (JStr "Metal Parts")
       [("metalpartsxl", medium_shield)] = Ok (Some medium_shield)
  /\ levenshtein_distance "metalparts" "metalpartsbulk" = 4
  /\ find_existing_item (JStr "Metal Parts")
       [("metalpartsbulk", medium_shield)] = Ok None
  /\ levenshtein_distance "twentycharacterslong" "twentycharacterslongname"
     = 4
  /\ (exists item',
        find_existing_item (JStr "twentycharacterslong")
          [("twentycharacterslongname", medium_shield)] = Ok (Some item'))
  /\ find_existing_item (JStr "nineteencharacterss")
       [("nineteencharacterssname", medium_shield)] = Ok None.
Proof.
  repeat (split; [reflexivity|]). split; [|reflexivity].
  destruct (find_existing_item_threshold (JStr "twentycharacterslong")
              "twentycharacterslong"
              [("twentycharacterslongname", medium_shield)]
              eq_refl eq_refl) as (_ & _ & Hexact).
  destruct Hexact as (_ & _ & Haccepts); [vm_compute; lia|].
  apply (Haccepts "twentycharacterslongname" medium_shield);
    [now left | vm_compute; lia | vm_compute; lia].
Defined.

(** C1: a name made of punctuation only has the empty normalized key, and
    the search still returns an entry: the fuzzy loop accepts every key of at
    most three characters, the distance from the empty key being the key's
    length.  In a whole run the record named "???" takes over the curated
    fields of the catalog's "Axe". *)
Theorem find_existing_item_empty_key_matches :
  normalize_name (JStr "???") = Ok ""
  /\ dict_get "" [("axe", axe)] = None
  /\ find_existing_item (JStr "???") [("axe", axe)] = Ok (Some axe)
  /\ forall py_repr,
       main py_repr [("mystery", [("name", JObj [("en", JStr "???")])])]
         [JObj axe]
       = Ok ([[("name", JStr "???"); ("category", JStr "Material");
               ("rarity", JStr "Common"); ("value", JInt 0);
               ("description", JStr ""); ("weight", JFloat 0.1);
               ("stackSize", JInt 1); ("recycleValuePercent", JNull);
               ("recycleOutputs", JNull); ("foundIn", JNull);
               ("imageUrl", JNull);
               ("projectUses", JList [JStr "Workshop A"]);
               ("workshopUses", JList []); ("keepForQuests", JBool false);
               ("questUses", JList []); ("recommendation", JStr "Keep")]],
             mk_stats 1 0 0).
Proof. repeat split. Qed.

(** * Dictionaries: reading after writing *)

Lemma dict_get_set_same {V : Type} (k : string) (v : V) (d : dict V) :
  dict_get k (dict_set k v d) = Some v.
Proof.
  induction d as [|[k' v'] d IH]; cbn.
  - now rewrite String.eqb_refl.
  - destruct (String.eqb k' k) eqn:E; cbn; now rewrite E.
Qed.

Lemma dict_get_set_other {V : Type} (k k0 : string) (v : V) (d : dict V) :
  k <> k0 -> dict_get k0 (dict_set k v d) = dict_get k0 d.
Proof.
  intros Hne. induction d as [|[k' v'] d IH]; cbn.
  - apply String.eqb_neq in Hne. now rewrite Hne.
  - destruct (String.eqb k' k) eqn:E; cbn.
    + apply String.eqb_eq in E. subst k'.
      apply String.eqb_neq in Hne. now rewrite Hne.
    + now rewrite IH.
Qed.

Lemma dict_set_not_nil {V : Type} (k : string) (v : V) (d : dict V) :
  dict_set k v d <> [].
Proof.
  destruct d as [|[k' v'] d]; cbn; [|destruct (String.eqb k' k)]; discriminate.
Qed.

Lemma dict_get_in {V : Type} (k : string) (v : V) (d : dict V) :
  dict_get k d = Some v -> In (k, v) d.
Proof.
  induction d as [|[k' v'] d IH]; cbn; [discriminate|].
  destruct (String.eqb k' k) eqn:E.
  - apply String.eqb_eq in E. intros H. inversion H. subst. now left.
  - intros H. right. now apply IH.
Qed.

(** * auto_recommend *)

(** What the fifth rule tests in the code: that [recyclesInto] has an entry,
    whatever its counts. *)
Lemma auto_recommend_recycle_iff (item : dict json) (nonempty : bool) :
  past_rule_4 item = true ->
  has_entries (get_default "recyclesInto" (JObj []) item) = Ok nonempty ->
  (auto_recommend item = Ok "Recycle" <-> nonempty = true).
Proof.
  unfold past_rule_4, auto_recommend. cbv zeta. intros Hpast Hentries.
  repeat (apply andb_prop in Hpast as [Hpast ?]).
  repeat match goal with
         | H : negb ?b = true |- _ => apply negb_true_iff in H; rewrite H
         end.
  rewrite Hentries. cbn [bind]. destruct nonempty; [tauto|].
  split; [|discriminate].
  match goal with
  | |- (if ?b then _ else _) = _ -> _ => destruct b
  end; discriminate.
Qed.

Lemma auto_recommend_returns (item : dict json) (nonempty : bool) :
  has_entries (get_default "recyclesInto" (JObj []) item) = Ok nonempty ->
  exists recommendation, auto_recommend item = Ok recommendation.
Proof.
  intros H. unfold auto_recommend. cbv zeta. rewrite H. cbn [bind].
  repeat match goal with
         | |- context [if ?b then _ else _] => destruct b
         end; eauto.
Qed.

(** C2: a brand-new record that passes the first four rules and whose
    [recyclesInto] holds a single zero count is recommended "Recycle", while
    its [recycleOutputs] is null. *)
Theorem auto_recommend_zero_counts :
  past_rule_4 zero_count_item = true
  /\ auto_recommend zero_count_item = Ok "Recycle"
  /\ forall py_repr id_to_name_map,
       exists out,
         transform_item py_repr zero_count_item id_to_name_map None = Ok out
         /\ dict_get "recycleOutputs" out = Some JNull
         /\ dict_get "recommendation" out = Some (JStr "Recycle").
Proof.
  split; [reflexivity|]. split; [reflexivity|].
  intros py_repr id_to_name_map. eexists. split; [reflexivity|].
  split; reflexivity.
Qed.

(** * transform_item *)

Section TransformFacts.

Variable py_repr : json -> string.
Variable id_to_name_map : dict string.

Lemma recycle_fold_raised (m : dict json) :
  fold_left (recycle_step id_to_name_map) m Raised = Raised.
Proof. induction m as [|[id c] m IH]; cbn; auto. Qed.

Lemma recycle_step_unfold (acc : dict json) (id : string) (c : json) :
  recycle_step id_to_name_map (Ok acc) (id, c) =
  match gt_zero c with
  | Ok true => Ok (dict_set (id_to_display_name id id_to_name_map) c acc)
  | Ok false => Ok acc
  | Raised => Raised
  end.
Proof. cbn. destruct (gt_zero c) as [[|]|]; reflexivity. Qed.





Lemma recycle_fold_returns (m : dict json) :
  forallb (fun e => comparable (snd e)) m = true ->
  forall acc,
  exists d, fold_left (recycle_step id_to_name_map) m (Ok acc) = Ok d.
Proof.
  induction m as [|[id c] m IH]; intros Hall acc; [cbn; eauto|].
  cbn [forallb snd] in Hall. apply andb_prop in Hall as [Hc Hall].
  cbn [fold_left]. rewrite recycle_step_unfold. unfold comparable in Hc.
  destruct (gt_zero c) as [[|]|]; [apply IH | apply IH | discriminate]; auto.
Qed.

(** The shape of the dictionary built at lines 278-290. *)
Lemma base_item_inv (rt_item item : dict json) :
  base_item py_repr rt_item id_to_name_map = Ok item ->
  exists category recycle_outputs found_in,
    category_of (get_default "type" (JStr "Material") rt_item) = Ok category
    /\ recycle_outputs_of (get_default "recyclesInto" (JObj []) rt_item)
         id_to_name_map = Ok recycle_outputs
    /\ parse_found_in (get_default "foundIn" (JStr "") rt_item) = Ok found_in
    /\ item =
       [ ("name", english py_repr "name" rt_item);
         ("category", category);
         ("rarity", get_default "rarity" (JStr "Common") rt_item);
         ("value", get_default "value" (JInt 0) rt_item);
         ("description", english py_repr "description" rt_item);
         ("weight", get_default "weightKg" (JFloat 0.1) rt_item);
         ("stackSize", get_default "stackSize" (JInt 1) rt_item);
         ("recycleValuePercent", JNull);
         ("recycleOutputs", recycle_outputs);
         ("foundIn", match found_in with
                     | [] => JNull
                     | _ => JList (map JStr found_in)
                     end);
         ("imageUrl", get_or_null "imageFilename" rt_item) ].
Proof.
  unfold base_item. cbv zeta.
  destruct (category_of _) as [category|]; [|discriminate].
  destruct (recycle_outputs_of _ _) as [recycle_outputs|]; [|discriminate].
  destruct (parse_found_in _) as [found_in|]; [|discriminate].
  cbn [bind]. intros H. inversion H.
  now exists category, recycle_outputs, found_in.
Qed.

Lemma recycle_outputs_of_entries (v ro : json) :
  recycle_outputs_of v id_to_name_map = Ok ro ->
  exists nonempty, has_entries v = Ok nonempty.
Proof.
  unfold recycle_outputs_of. destruct (has_entries v); [eauto|discriminate].
Qed.

Lemma base_item_returns (rt_item : dict json) :
  raw_well_formed rt_item = true ->
  exists item, base_item py_repr rt_item id_to_name_map = Ok item.
Proof.
  unfold raw_well_formed, base_item. cbv zeta. intros H.
  apply andb_prop in H as [H Hfound]. apply andb_prop in H as [Htype Hrec].
  assert (Hc : exists c,
             category_of (get_default "type" (JStr "Material") rt_item) = Ok c).
  { destruct (get_default "type" _ rt_item); cbn; eauto; discriminate. }
  destruct Hc as [c ->].
  assert (Hr : exists r,
             recycle_outputs_of (get_default "recyclesInto" (JObj []) rt_item)
               id_to_name_map = Ok r).
  { unfold recycle_outputs_of, has_entries.
    destruct (get_default "recyclesInto" _ rt_item) as [| | | | |l|m];
      try (apply negb_true_iff in Hrec; rewrite Hrec; cbn; eauto).
    destruct m as [|e m]; [cbn; eauto|].
    cbn [truthy py_len bind List.length Nat.ltb Nat.leb].
    destruct (recycle_fold_returns (e :: m) Hrec []) as [d Hd].
    unfold dict in *. rewrite Hd.
    cbn [bind]. eauto. }
  destruct Hr as [r ->].
  assert (Hf : exists f,
             parse_found_in (get_default "foundIn" (JStr "") rt_item) = Ok f).
  { unfold parse_found_in.
    destruct (get_default "foundIn" _ rt_item);
      try (apply negb_true_iff in Hfound; rewrite Hfound; cbn; eauto).
    match goal with
    | |- context [if ?b then _ else _] => destruct b
    end; eauto. }
  destruct Hf as [f ->]. cbn [bind]. eauto.
Qed.

(** Whether [transform_item] returns, and what it returns in the canonical
    fields, is decided before the existing record is looked at. *)
Lemma transform_item_inv (rt_item : dict json)
  (existing_item : option (dict json)) (out : dict json) :
  transform_item py_repr rt_item id_to_name_map existing_item = Ok out ->
  exists item,
    base_item py_repr rt_item id_to_name_map = Ok item
    /\ Forall (fun k => dict_get k out = dict_get k item) canonical_fields.
Proof.
  unfold transform_item.
  destruct (base_item py_repr rt_item id_to_name_map) as [item|] eqn:Hbase;
    [|discriminate].
  cbn [bind]. intros Hout. exists item. split; [reflexivity|].
  apply base_item_inv in Hbase
    as (category & recycle_outputs & found_in & _ & _ & _ & ->).
  destruct existing_item as [[|e0 existing]|].
  - destruct (auto_recommend rt_item); [|discriminate].
    cbn [bind] in Hout. injection Hout as <-. repeat constructor.
  - destruct (get_or_null "recycleValuePercent" (e0 :: existing));
      injection Hout as <-; repeat constructor.
  - destruct (auto_recommend rt_item); [|discriminate].
    cbn [bind] in Hout. injection Hout as <-. repeat constructor.
Qed.

Lemma transform_item_returns (rt_item item : dict json)
  (existing_item : option (dict json)) :
  base_item py_repr rt_item id_to_name_map = Ok item ->
  exists out,
    transform_item py_repr rt_item id_to_name_map existing_item = Ok out.
Proof.
  intros Hbase. unfold transform_item. rewrite Hbase. cbn [bind].
  apply base_item_inv in Hbase as (? & ro & ? & _ & Hro & _ & _).
  apply recycle_outputs_of_entries in Hro as [nonempty Hentries].
  destruct (auto_recommend_returns _ _ Hentries) as [r Hr]. rewrite Hr.
  destruct existing_item as [[|e0 existing]|]; cbn [bind]; eauto.
  destruct (get_or_null "recycleValuePercent" (e0 :: existing)); eauto.
Qed.

End TransformFacts.

Section TransformClaims.

Variable py_repr : json -> string.
Variable id_to_name_map : dict string.

Lemma transform_item_existing_fields (rt_item existing out : dict json) :
  existing <> [] ->
  transform_item py_repr rt_item id_to_name_map (Some existing) = Ok out ->
  dict_get "projectUses" out
  = Some (get_default "projectUses" (JList []) existing)
  /\ dict_get "workshopUses" out
     = Some (get_default "workshopUses" (JList []) existing)
  /\ dict_get "keepForQuests" out
     = Some (get_default "keepForQuests" (JBool false) existing)
  /\ dict_get "questUses" out
     = Some (get_default "questUses" (JList []) existing)
  /\ dict_get "recommendation" out
     = Some (get_default "recommendation" (JStr "Either") existing)
  /\ dict_get "recycleValuePercent" out
     = Some (get_or_null "recycleValuePercent" existing).
Proof.
  intros Hne. destruct existing as [|e0 ex]; [contradiction|].
  unfold transform_item.
  destruct (base_item py_repr rt_item id_to_name_map) as [item|] eqn:Hbase;
    [|discriminate].
  apply base_item_inv in Hbase as (? & ? & ? & _ & _ & _ & ->).
  cbn [bind]. set (existing := e0 :: ex). clearbody existing.
  destruct (get_or_null "recycleValuePercent" existing) eqn:E;
    intros Hout; injection Hout as <-; repeat split.
Qed.

Lemma has_curator_fields_get (existing : dict json) (k : string)
  (default : json) :
  has_curator_fields existing = true ->
  In k curator_fields ->
  Some (get_default k default existing) = dict_get k existing.
Proof.
  unfold has_curator_fields. rewrite forallb_forall. intros Hall Hin.
  specialize (Hall _ Hin). unfold dict_mem, get_default in *.
  destruct (dict_get k existing); [reflexivity|discriminate].
Qed.

(** C3: with an existing record that carries the five curator-owned
    fields, the output has each of them as the existing record has it; its
    [recycleValuePercent] is the existing one when that is not null, and
    null otherwise.  This holds for every raw record on which the
    transformation returns, and it returns on every well-formed one. *)
Theorem transform_item_keeps_curated (rt_item existing : dict json) :
  has_curator_fields existing = true ->
  (forall out,
      transform_item py_repr rt_item id_to_name_map (Some existing) = Ok out ->
      Forall (fun k => dict_get k out = dict_get k existing) curator_fields
      /\ (forall percent,
             dict_get "recycleValuePercent" existing = Some percent ->
             percent <> JNull ->
             dict_get "recycleValuePercent" out = Some percent)
      /\ (dict_get "recycleValuePercent" existing = None
          \/ dict_get "recycleValuePercent" existing = Some JNull ->
          dict_get "recycleValuePercent" out = Some JNull))
  /\ (raw_well_formed rt_item = true ->
      exists out,
        transform_item py_repr rt_item id_to_name_map (Some existing) = Ok out).
Proof.
  intros Hfields. split.
  - intros out Hout.
    assert (Hne : existing <> []) by (intros ->; discriminate).
    destruct (transform_item_existing_fields _ _ _ Hne Hout)
      as (Hp & Hw & Hk & Hq & Hr & Hv).
    split; [|split].
    + repeat constructor;
        [rewrite Hp | rewrite Hw | rewrite Hk | rewrite Hq | rewrite Hr];
        apply has_curator_fields_get; cbn; auto 6.
    + intros percent Hget _. rewrite Hv. unfold get_or_null, get_default.
      now rewrite Hget.
    + intros [Hget|Hget]; rewrite Hv; unfold get_or_null, get_default;
        now rewrite Hget.
  - intros Hwf.
    destruct (base_item_returns py_repr id_to_name_map _ Hwf) as [item Hitem].
    now apply (transform_item_returns _ _ _ item).
Qed.

Lemma recycle_outputs_of_obj (m : dict json) (ro : json) :
  recycle_outputs_of (JObj m) id_to_name_map = Ok ro ->
  exists d,
    fold_left (recycle_step id_to_name_map) m (Ok []) = Ok d
    /\ ro = match d with [] => JNull | _ => JObj d end.
Proof.
  unfold recycle_outputs_of, has_entries. destruct m as [|e m].
  - cbn. intros H. injection H as <-. now exists [].
  - cbn [truthy py_len bind List.length Nat.ltb Nat.leb].
    destruct (fold_left _ _ _) as [d|]; [|discriminate].
    cbn [bind]. intros H. injection H as <-. now exists d.
Qed.


(** C10: two runs on the same raw record and table, with any two values
    of the existing record, both raise or both return, and the two outputs
    agree on each of the ten canonical fields. *)
Theorem transform_item_existing_noninterference (rt_item : dict json)
  (existing1 existing2 : option (dict json)) :
  match transform_item py_repr rt_item id_to_name_map existing1,
        transform_item py_repr rt_item id_to_name_map existing2 with
  | Ok out1, Ok out2 =>
      Forall (fun k => dict_get k out1 = dict_get k out2) canonical_fields
  | Raised, Raised => True
  | _, _ => False
  end.
Proof.
  destruct (base_item py_repr rt_item id_to_name_map) as [item|] eqn:Hbase.
  - destruct (transform_item_returns _ _ _ _ existing1 Hbase) as [out1 H1].
    destruct (transform_item_returns _ _ _ _ existing2 Hbase) as [out2 H2].
    rewrite H1, H2.
    apply transform_item_inv in H1 as (item1 & Hb1 & Hs1).
    apply transform_item_inv in H2 as (item2 & Hb2 & Hs2).
    assert (item1 = item) by congruence. assert (item2 = item) by congruence.
    subst item1 item2. rewrite Forall_forall in *. intros k Hk.
    now rewrite (Hs1 k Hk), (Hs2 k Hk).
  - unfold transform_item. now rewrite Hbase.
Qed.

End TransformClaims.

(** * The order of the merged catalog *)

Lemma string_leb_trans (a b c : string) :
  String.leb a b = true -> String.leb b c = true -> String.leb a c = true.
Proof.
  unfold String.leb. revert b c.
  induction a as [|x a IH]; intros [|y b] [|z c]; cbn [String.compare];
    try discriminate; try reflexivity.
  unfold Ascii.compare.
  destruct (N.compare_spec (N_of_ascii x) (N_of_ascii y)) as [Hxy|Hxy|Hxy];
    destruct (N.compare_spec (N_of_ascii y) (N_of_ascii z)) as [Hyz|Hyz|Hyz];
    destruct (N.compare_spec (N_of_ascii x) (N_of_ascii z)) as [Hxz|Hxz|Hxz];
    try discriminate; try reflexivity; try lia.
  apply IH.
Qed.

Lemma string_ltb_leb (a b : string) :
  String.ltb a b = true -> String.leb a b = true.
Proof. unfold String.ltb, String.leb. destruct (String.compare a b); auto. Qed.

Lemma string_not_ltb_leb (a b : string) :
  String.ltb a b = false -> String.leb b a = true.
Proof.
  unfold String.ltb, String.leb. rewrite (String.compare_antisym b a).
  destruct (String.compare a b); cbn; auto; discriminate.
Qed.

Lemma key_le_trans : Relations_1.Transitive key_le.
Proof. intros x y z. apply string_leb_trans. Qed.

Lemma insert_by_key_in (kx ky : string * dict json)
  (l : list (string * dict json)) :
  In ky (insert_by_key kx l) -> ky = kx \/ In ky l.
Proof.
  induction l as [|kz l IH]; cbn.
  - intros [H|[]]; auto.
  - destruct (String.ltb (fst kz) (fst kx)); cbn.
    + intros [H|H]; auto. destruct (IH H); auto.
    + intros [H|[H|H]]; auto.
Qed.

Lemma insert_by_key_sorted (kx : string * dict json)
  (l : list (string * dict json)) :
  Sorted key_le l -> Sorted key_le (insert_by_key kx l).
Proof.
  induction l as [|ky l IH]; intros Hs; cbn.
  - repeat constructor.
  - inversion Hs as [|? ? Hsl Hhd]; subst.
    destruct (String.ltb (fst ky) (fst kx)) eqn:E.
    + constructor; [auto|].
      destruct l as [|kz l]; cbn.
      * constructor. now apply string_ltb_leb.
      * destruct (String.ltb (fst kz) (fst kx)).
        -- constructor. now inversion Hhd.
        -- constructor. now apply string_ltb_leb.
    + constructor; [assumption|]. constructor. now apply string_not_ltb_leb.
Qed.

Lemma sort_by_key_sorted (l : list (string * dict json)) :
  StronglySorted key_le (sort_by_key l).
Proof.
  apply Sorted_StronglySorted; [exact key_le_trans|].
  induction l as [|kx l IH]; cbn; [constructor|].
  now apply insert_by_key_sorted.
Qed.

Lemma sort_by_key_in (kx : string * dict json) (l : list (string * dict json)) :
  In kx (sort_by_key l) -> In kx l.
Proof.
  induction l as [|ky l IH]; cbn; [auto|].
  intros H. apply insert_by_key_in in H as [H|H]; auto.
Qed.

Lemma with_keys_in (l : list (dict json)) (keyed : list (string * dict json)) :
  with_keys l = Ok keyed ->
  forall k x, In (k, x) keyed -> sort_key x = Ok k.
Proof.
  revert keyed. induction l as [|y l IH]; intros keyed; cbn.
  - intros H. injection H as <-. intros ? ? [].
  - destruct (sort_key y) as [ky|] eqn:Hy; [|discriminate]. cbn [bind].
    destruct (with_keys l) as [rest|]; [|discriminate]. cbn [bind].
    intros H. injection H as <-. intros k x [Heq|Hin].
    + now inversion Heq; subst.
    + eauto.
Qed.

Lemma sort_key_inv (x : dict json) (k : string) :
  sort_key x = Ok k ->
  exists name, dict_get "name" x = Some (JStr name) /\ k = lower name.
Proof.
  unfold sort_key. destruct (dict_get "name" x) as [[| | | |s| |]|];
    try discriminate.
  intros H. injection H as <-. eauto.
Qed.

Lemma strongly_sorted_nth {A : Type} (R : A -> A -> Prop) (l : list A) :
  StronglySorted R l ->
  forall i j a b,
    i < j -> nth_error l i = Some a -> nth_error l j = Some b -> R a b.
Proof.
  induction 1 as [|x l Hs IH Hall]; intros i j a b Hij Hi Hj.
  - destruct i; discriminate.
  - destruct j as [|j]; [lia|]. cbn in Hj. destruct i as [|i]; cbn in Hi.
    + injection Hi as <-. rewrite Forall_forall in Hall.
      apply Hall. eapply nth_error_In; eauto.
    + apply (IH i j); auto. lia.
Qed.

Lemma sort_by_name_sorted (merged_items out : list (dict json)) :
  sort_by_name merged_items = Ok out ->
  forall i j xi xj,
    i < j -> nth_error out i = Some xi -> nth_error out j = Some xj ->
    exists ni nj,
      dict_get "name" xi = Some (JStr ni)
      /\ dict_get "name" xj = Some (JStr nj)
      /\ String.leb (lower ni) (lower nj) = true.
Proof.
  unfold sort_by_name.
  destruct (with_keys merged_items) as [keyed|] eqn:Hkeys; [|discriminate].
  cbn [bind]. intros H. injection H as <-. intros i j xi xj Hij Hi Hj.
  rewrite nth_error_map in Hi, Hj.
  destruct (nth_error (sort_by_key keyed) i) as [[ki xi']|] eqn:Ei;
    [|discriminate].
  destruct (nth_error (sort_by_key keyed) j) as [[kj xj']|] eqn:Ej;
    [|discriminate].
  cbn in Hi, Hj. injection Hi as ->. injection Hj as ->.
  pose proof (strongly_sorted_nth _ _ (sort_by_key_sorted keyed)
                _ _ _ _ Hij Ei Ej) as Hle.
  apply nth_error_In, sort_by_key_in in Ei, Ej.
  apply (with_keys_in _ _ Hkeys), sort_key_inv in Ei as (ni & Hni & ->).
  apply (with_keys_in _ _ Hkeys), sort_key_inv in Ej as (nj & Hnj & ->).
  now exists ni, nj.
Qed.

(** C8: the catalog that [main] produces is in ascending order of the
    lower-cased names: of two records, the one at the smaller position has
    the smaller or equal key.  On the names "Zed Core", "Apple Seed",
    "mango" the order of the output is "Apple Seed", "mango", "Zed Core". *)
Theorem main_sorted_by_name (py_repr : json -> string) :
  (forall rt_items existing_items out st,
      main py_repr rt_items existing_items = Ok (out, st) ->
      forall i j xi xj,
        i < j -> nth_error out i = Some xi -> nth_error out j = Some xj ->
        exists ni nj,
          dict_get "name" xi = Some (JStr ni)
          /\ dict_get "name" xj = Some (JStr nj)
          /\ String.leb (lower ni) (lower nj) = true)
  /\ exists out st,
       main py_repr three_items [] = Ok (out, st)
       /\ map (dict_get "name") out
          = [Some (JStr "Apple Seed"); Some (JStr "mango");
             Some (JStr "Zed Core")].
Proof.
  split.
  - intros rt_items existing_items out st. unfold main. cbv zeta.
    destruct (fold_left existing_by_name_step existing_items (Ok []))
      as [existing_by_name|]; [|discriminate].
    cbn [bind].
    destruct (display_names _) as [id_to_name_map|]; [|discriminate].
    cbn [bind].
    destruct (fold_left _ rt_items (Ok ([], mk_stats 0 0 0)))
      as [[merged_items st']|]; [|discriminate].
    cbn [bind].
    destruct (sort_by_name merged_items) as [sorted|] eqn:Hsort;
      [|discriminate].
    cbn [bind]. intros H. injection H as <- <-.
    now apply (sort_by_name_sorted merged_items).
  - eexists. eexists. split; reflexivity.
Qed.

Lemma main_sorted_by_name_witness :
  exists out st,
    main (fun _ => "") three_items [] = Ok (out, st)
    /\ forall xi xj,
         nth_error out 0 = Some xi -> nth_error out 1 = Some xj ->
         exists ni nj,
           dict_get "name" xi = Some (JStr ni)
           /\ dict_get "name" xj = Some (JStr nj)
           /\ String.leb (lower ni) (lower nj) = true.
Proof.
  eexists. eexists. split; [vm_compute; reflexivity|].
  intros xi xj Hi Hj.
  apply (proj1 (main_sorted_by_name (fun _ => "")) three_items [] _ _ eq_refl
           0 1 xi xj); [lia | exact Hi | exact Hj].
Defined.

Lemma transform_item_keeps_curated_witness :
  has_curator_fields curated_junk = true
  /\ raw_well_formed legendary_junk = true
  /\ exists out,
       transform_item (fun _ => "") legendary_junk [] (Some curated_junk)
       = Ok out
       /\ dict_get "recommendation" out = Some (JStr "Keep")
       /\ dict_get "projectUses" out = Some (JList [JStr "Workshop A"])
       /\ dict_get "recycleValuePercent" out = Some (JInt 37).
Proof.
  split; [reflexivity|]. split; [reflexivity|].
  destruct (transform_item_keeps_curated (fun _ => "") [] legendary_junk
              curated_junk eq_refl) as [Hkeeps Hreturns].
  destruct (Hreturns eq_refl) as [out Hout]. exists out.
  destruct (Hkeeps out Hout) as (Hall & Hpercent & _).
  rewrite Forall_forall in Hall.
  split; [exact Hout|]. split; [|split].
  - rewrite (Hall "recommendation"); [reflexivity | cbn; auto 6].
  - rewrite (Hall "projectUses"); [reflexivity | cbn; auto 6].
  - apply Hpercent; [reflexivity | discriminate].
Defined.


(** Two ids with the same title case share one entry, which keeps the later
    count: the sharp s and "ss" both read "Ss". *)
Example recycle_outputs_of_sharp_s :
  recycle_outputs_of (JObj [(String sharp_s "", JInt 1); ("ss", JInt 2)]) []
  = Ok (JObj [("Ss", JInt 2)]).
Proof. reflexivity. Qed.
(** * Further properties: normalize_name *)

Lemma lower_char_idempotent (c : ascii) :
  lower_char (lower_char c) = lower_char c.
Proof. destruct c as [[] [] [] [] [] [] [] []]; reflexivity. Qed.

Lemma is_a_z_0_9_lower_char (c : ascii) :
  is_a_z_0_9 c = true -> lower_char c = c.
Proof.
  destruct c as [[] [] [] [] [] [] [] []]; intros H;
    try reflexivity; discriminate.
Qed.

Lemma str_map_append (f : ascii -> ascii) (a b : string) :
  str_map f (a ++ b)%string = (str_map f a ++ str_map f b)%string.
Proof. induction a as [|c a IH]; cbn; [reflexivity|]. now rewrite IH. Qed.

Lemma str_filter_append (p : ascii -> bool) (a b : string) :
  str_filter p (a ++ b)%string = (str_filter p a ++ str_filter p b)%string.
Proof.
  induction a as [|c a IH]; cbn; [reflexivity|].
  destruct (p c); cbn; now rewrite IH.
Qed.

Lemma str_filter_all (p : ascii -> bool) (s : string) :
  Forall (fun c => p c = true) (list_ascii_of_string (str_filter p s)).
Proof.
  induction s as [|c s IH]; cbn; [constructor|].
  destruct (p c) eqn:E; cbn; [constructor|]; assumption.
Qed.

Lemma str_filter_idempotent (p : ascii -> bool) (s : string) :
  str_filter p (str_filter p s) = str_filter p s.
Proof.
  induction s as [|c s IH]; cbn; [reflexivity|].
  destruct (p c) eqn:E; cbn; [rewrite E, IH|]; auto.
Qed.

Lemma lower_key (s : string) :
  lower (strip_non_alnum s) = strip_non_alnum s.
Proof.
  unfold lower, strip_non_alnum. induction s as [|c s IH]; cbn; [reflexivity|].
  destruct (is_a_z_0_9 c) eqn:E; cbn; [|assumption].
  now rewrite IH, is_a_z_0_9_lower_char.
Qed.

Lemma lower_idempotent (s : string) : lower (lower s) = lower s.
Proof.
  unfold lower. induction s as [|c s IH]; cbn; [reflexivity|].
  now rewrite IH, lower_char_idempotent.
Qed.

(** The key of a string, without the test for an empty name. *)
Lemma normalize_name_str (s : string) :
  normalize_name (JStr s) = Ok (strip_non_alnum (lower s)).
Proof. destruct s; reflexivity. Qed.

Lemma normalize_name_inv (name : json) (k : string) :
  normalize_name name = Ok k ->
  k = "" \/ exists s, name = JStr s /\ k = strip_non_alnum (lower s).
Proof.
  unfold normalize_name. destruct (negb (truthy name)).
  - intros H. injection H as <-. now left.
  - destruct name; try discriminate. intros H. injection H as <-. eauto.
Qed.

(** X1: a normalized key holds only the characters a-z and 0-9, and it is
    its own normalized key. *)
Theorem normalize_name_canonical (name : json) (k : string) :
  normalize_name name = Ok k ->
  Forall (fun c => is_a_z_0_9 c = true) (list_ascii_of_string k)
  /\ normalize_name (JStr k) = Ok k.
Proof.
  intros H. apply normalize_name_inv in H as [->|(s & -> & ->)].
  - split; [constructor|reflexivity].
  - split; [apply str_filter_all|].
    rewrite normalize_name_str. f_equal.
    rewrite lower_key. apply str_filter_idempotent.
Qed.

Lemma normalize_name_canonical_witness :
  normalize_name (JStr "Iron Plate-2!") = Ok "ironplate2"
  /\ Forall (fun c => is_a_z_0_9 c = true) (list_ascii_of_string "ironplate2")
  /\ normalize_name (JStr "ironplate2") = Ok "ironplate2".
Proof.
  split; [reflexivity|].
  apply (normalize_name_canonical (JStr "Iron Plate-2!")). reflexivity.
Defined.

(** X2: the key of a concatenation is the concatenation of the keys. *)
Theorem normalize_name_append (a b : string) :
  normalize_name (JStr (a ++ b)%string) =
  (ka <- normalize_name (JStr a) ;;
   kb <- normalize_name (JStr b) ;;
   Ok (ka ++ kb)%string).
Proof.
  rewrite !normalize_name_str. cbn [bind]. unfold lower, strip_non_alnum.
  now rewrite str_map_append, str_filter_append.
Qed.

(** X3: names that differ in letter case only, or in characters other than
    letters and digits only, have the same key. *)
Theorem normalize_name_insensitive (s : string) :
  normalize_name (JStr (lower s)) = normalize_name (JStr s)
  /\ normalize_name (JStr (str_filter (fun c => is_a_z_0_9 (lower_char c)) s))
     = normalize_name (JStr s).
Proof.
  rewrite !normalize_name_str. split.
  - now rewrite lower_idempotent.
  - f_equal. unfold lower, strip_non_alnum.
    induction s as [|c s IH]; cbn; [reflexivity|].
    destruct (is_a_z_0_9 (lower_char c)) eqn:E; cbn; rewrite ?E, IH;
      reflexivity.
Qed.

(** X4: [normalize_name] raises exactly on a truthy value that is not a
    string, and every falsy value ([None], [False], [0], [0.0], the empty
    string, list or dict) gives the empty key. *)
Theorem normalize_name_raises_iff (name : json) :
  (normalize_name name = Raised
   <-> truthy name = true /\ forall s, name <> JStr s)
  /\ (truthy name = false -> normalize_name name = Ok "").
Proof.
  unfold normalize_name. split; [split|].
  - destruct (truthy name) eqn:T; cbn; [|discriminate].
    destruct name; try discriminate; intros _; split; auto; discriminate.
  - intros [T Hns]. rewrite T. cbn.
    destruct name; try reflexivity. now destruct (Hns s).
  - intros T. now rewrite T.
Qed.

Lemma normalize_name_raises_iff_witness :
  normalize_name (JInt 7) = Raised
  /\ normalize_name JNull = Ok ""
  /\ normalize_name (JInt 0) = Ok ""
  /\ normalize_name (JStr "") = Ok ""
  /\ normalize_name (JList []) = Ok "".
Proof.
  split; [|split; [|split; [|split]]].
  - apply (normalize_name_raises_iff (JInt 7)). split; [reflexivity|].
    intros s H. discriminate H.
  - apply (normalize_name_raises_iff JNull). reflexivity.
  - apply (normalize_name_raises_iff (JInt 0)). reflexivity.
  - apply (normalize_name_raises_iff (JStr "")). reflexivity.
  - apply (normalize_name_raises_iff (JList [])). reflexivity.
Defined.

(** * Further properties: levenshtein_distance *)

Lemma edit_cons_l_le (x : ascii) (a b : list ascii) :
  edit (x :: a) b <= edit a b + 1.
Proof.
  destruct b as [|y b].
  - rewrite !edit_nil_r. cbn. lia.
  - rewrite edit_cons. lia.
Qed.

Lemma edit_cons_r_le (y : ascii) (a b : list ascii) :
  edit a (y :: b) <= edit a b + 1.
Proof. rewrite (edit_sym a (y :: b)), (edit_sym a b). apply edit_cons_l_le. Qed.

Lemma neq_cost_triangle (x y z : ascii) :
  neq_cost x z <= neq_cost x y + neq_cost y z.
Proof.
  unfold neq_cost.
  destruct (Ascii.eqb_spec x y), (Ascii.eqb_spec y z), (Ascii.eqb_spec x z);
    try lia; congruence.
Qed.

Lemma edit_length_le (a b : list ascii) :
  List.length a <= edit a b + List.length b.
Proof.
  revert b. induction a as [|x a IHa]; intros b; [cbn; lia|].
  induction b as [|y b IHb].
  - rewrite edit_nil_r. lia.
  - rewrite edit_cons. pose proof (IHa (y :: b)). pose proof (IHa b).
    cbn [List.length] in *. lia.
Qed.

Lemma edit_triangle_below (n : nat) :
  forall a b c,
    List.length a + List.length b + List.length c < n ->
    edit a c <= edit a b + edit b c.
Proof.
  induction n as [|n IH]; intros a b c Hn; [lia|].
  destruct a as [|x a].
  - pose proof (edit_length_le c b) as H. rewrite (edit_sym c b) in H.
    change (edit [] c) with (List.length c).
    change (edit [] b) with (List.length b). lia.
  - destruct b as [|y b].
    + pose proof (edit_le_max (x :: a) c). rewrite edit_nil_r.
      change (edit [] c) with (List.length c). cbn [List.length] in *. lia.
    + destruct c as [|z c].
      * pose proof (edit_length_le (x :: a) (y :: b)).
        rewrite !edit_nil_r. lia.
      * cbn [List.length] in Hn.
        pose proof (edit_cons_l_le x a (z :: c)) as H1.
        pose proof (edit_cons_r_le z (x :: a) c) as H2.
        pose proof (edit_cons_cons_le x z a c) as H3.
        pose proof (neq_cost_triangle x y z) as Hc.
        assert (I1 : edit a (z :: c)
                     <= edit a (y :: b) + edit (y :: b) (z :: c))
          by (apply IH; cbn [List.length]; lia).
        assert (I2 : edit (x :: a) (z :: c)
                     <= edit (x :: a) b + edit b (z :: c))
          by (apply IH; cbn [List.length]; lia).
        assert (I3 : edit (x :: a) c
                     <= edit (x :: a) (y :: b) + edit (y :: b) c)
          by (apply IH; cbn [List.length]; lia).
        assert (I4 : edit (x :: a) c <= edit (x :: a) b + edit b c)
          by (apply IH; cbn [List.length]; lia).
        assert (I5 : edit a (z :: c) <= edit a b + edit b (z :: c))
          by (apply IH; cbn [List.length]; lia).
        assert (I6 : edit a c <= edit a b + edit b c)
          by (apply IH; cbn [List.length]; lia).
        pose proof (edit_cons x y a b) as Eab.
        pose proof (edit_cons y z b c) as Ebc.
        lia.
Qed.

Lemma edit_triangle (a b c : list ascii) :
  edit a c <= edit a b + edit b c.
Proof.
  apply (edit_triangle_below
           (S (List.length a + List.length b + List.length c))). lia.
Qed.

Lemma edit_zero (a b : list ascii) : edit a b = 0 -> a = b.
Proof.
  revert b. induction a as [|x a IH]; intros [|y b]; try discriminate.
  - reflexivity.
  - rewrite edit_cons. intros H.
    assert (Hab : edit a b = 0) by lia.
    assert (Hxy : neq_cost x y = 0) by lia.
    unfold neq_cost in Hxy. destruct (Ascii.eqb x y) eqn:E; [|discriminate].
    apply Ascii.eqb_eq in E. subst. now rewrite (IH b Hab).
Qed.

Lemma list_ascii_of_string_inj (a b : string) :
  list_ascii_of_string a = list_ascii_of_string b -> a = b.
Proof.
  intros H. rewrite <- (string_of_list_ascii_of_string a),
    <- (string_of_list_ascii_of_string b). now rewrite H.
Qed.

(** X5: the distance obeys the triangle inequality. *)
Theorem levenshtein_distance_triangle (a b c : string) :
  levenshtein_distance a c
  <= levenshtein_distance a b + levenshtein_distance b c.
Proof. rewrite !levenshtein_distance_edit. apply edit_triangle. Qed.

(** X6: the distance is 0 between equal strings only. *)
Theorem levenshtein_distance_zero_iff (a b : string) :
  levenshtein_distance a b = 0 <-> a = b.
Proof.
  rewrite levenshtein_distance_edit. split.
  - intros H. apply edit_zero in H.
    apply list_ascii_of_string_inj.
    rewrite <- (rev_involutive (list_ascii_of_string a)), H.
    apply rev_involutive.
  - intros ->. apply edit_refl.
Qed.

(** X7: the distance is at least the difference of the lengths and at most
    the greater length. *)
Theorem levenshtein_distance_bounds (a b : string) :
  String.length a - String.length b <= levenshtein_distance a b
  /\ String.length b - String.length a <= levenshtein_distance a b
  /\ levenshtein_distance a b <= Nat.max (String.length a) (String.length b).
Proof.
  rewrite levenshtein_distance_edit.
  pose proof (edit_length_le (rev (list_ascii_of_string a))
                (rev (list_ascii_of_string b))) as H1.
  pose proof (edit_length_le (rev (list_ascii_of_string b))
                (rev (list_ascii_of_string a))) as H2.
  rewrite (edit_sym (rev (list_ascii_of_string b))) in H2.
  pose proof (edit_le_max (rev (list_ascii_of_string a))
                (rev (list_ascii_of_string b))) as H3.
  rewrite !length_rev, !length_list_ascii in *. lia.
Qed.

(** * Further properties: find_existing_item *)

(** X8: the search gives nothing exactly when the key is not in the index
    and the fuzzy test rejects every key of the index. *)
Theorem find_existing_item_none_iff (name : json) (n : string)
  (index : dict (dict json)) :
  normalize_name name = Ok n ->
  (find_existing_item name index = Ok None
   <-> dict_get n index = None
       /\ forall k it, In (k, it) index -> accepted n k = false).
Proof.
  intros Hn. unfold find_existing_item. rewrite Hn. cbn [bind].
  pose proof (fuzzy_match_result n index) as Hres.
  destruct (dict_get n index) as [item|]; [split; [|intros []]; discriminate|].
  split.
  - intros H. injection H as H. rewrite H in Hres.
    inversion Hres. auto.
  - intros [_ Hall]. destruct (fuzzy_match n index) as [item|]; [|reflexivity].
    apply fuzzy_result_in in Hres as (before & k & after & -> & Hacc & _).
    rewrite (Hall k item) in Hacc; [discriminate|].
    apply in_or_app. right. now left.
Qed.

Lemma find_existing_item_none_iff_witness :
  find_existing_item (JStr "Metal Parts")
    [("ironplate", iron_plate); ("medkit", medium_shield)] = Ok None.
Proof.
  apply (find_existing_item_none_iff (JStr "Metal Parts") "metalparts");
    [reflexivity|]. split; [reflexivity|].
  intros k it [H|[H|[]]]; inversion H; reflexivity.
Defined.

(** X9: what the search returns is an entry of the index, stored under the
    normalized name or under a key that passes the fuzzy test. *)
Theorem find_existing_item_from_index (name : json) (n : string)
  (index : dict (dict json)) (item : dict json) :
  normalize_name name = Ok n ->
  find_existing_item name index = Ok (Some item) ->
  exists k, In (k, item) index /\ (k = n \/ accepted n k = true).
Proof.
  intros Hn. unfold find_existing_item. rewrite Hn. cbn [bind].
  destruct (dict_get n index) as [it|] eqn:Hget.
  - intros H. injection H as ->. exists n. split; [|now left].
    now apply dict_get_in.
  - intros H. injection H as H.
    pose proof (fuzzy_match_result n index) as Hres. rewrite H in Hres.
    apply fuzzy_result_in in Hres as (before & k & after & -> & Hacc & _).
    exists k. split; [|now right]. apply in_or_app. right. now left.
Qed.

Lemma find_existing_item_from_index_witness :
  exists k,
    In (k, iron_plate_x) [("ironplatex", iron_plate_x)]
    /\ (k = "ironplate" \/ accepted "ironplate" k = true).
Proof.
  apply (find_existing_item_from_index (JStr "Iron Plate") "ironplate"
           [("ironplatex", iron_plate_x)] iron_plate_x); reflexivity.
Defined.

Lemma short_name_floor (len : nat) :
  len <= 15 -> PrimFloat.ltb 3 (float_of_nat len * 0.2) = false.
Proof.
  intros H. do 16 (destruct len as [|len]; [reflexivity|]). lia.
Qed.

(** X10: for a normalized name of at most 15 characters the fuzzy test is
    [distance <= 3]. *)
Theorem within_max_distance_short (n : string) (d : nat) :
  String.length n <= 15 -> within_max_distance d n = (d <=? 3).
Proof.
  intros H. unfold within_max_distance. now rewrite short_name_floor.
Qed.

Lemma within_max_distance_short_witness :
  within_max_distance 4 "fifteencharskey" = (4 <=? 3).
Proof. apply within_max_distance_short. vm_compute. lia. Defined.

(** X11: for a normalized name of at most 15 characters, a key whose length
    differs from the name's by more than 3 is never accepted. *)
Theorem accepted_length_gap (n k : string) :
  String.length n <= 15 ->
  3 < String.length k - String.length n
  \/ 3 < String.length n - String.length k ->
  accepted n k = false.
Proof.
  intros Hlen Hgap. unfold accepted, key_distance, within_max_distance.
  rewrite short_name_floor by assumption. apply Nat.leb_gt.
  rewrite levenshtein_distance_edit.
  pose proof (edit_length_le (rev (list_ascii_of_string n))
                (rev (list_ascii_of_string k))) as H1.
  pose proof (edit_length_le (rev (list_ascii_of_string k))
                (rev (list_ascii_of_string n))) as H2.
  rewrite (edit_sym (rev (list_ascii_of_string k))) in H2.
  rewrite !length_rev, !length_list_ascii in *. lia.
Qed.

Lemma accepted_length_gap_witness :
  accepted "ironplate" "ironplatearmor" = false.
Proof. apply accepted_length_gap; [|left]; vm_compute; lia. Defined.

(** * Further properties: the index of existing items (main, phase 3) *)

Lemma dict_set_in {V : Type} (k k' : string) (v v' : V) (d : dict V) :
  In (k', v') (dict_set k v d) -> (k' = k /\ v' = v) \/ In (k', v') d.
Proof.
  induction d as [|[k0 v0] d IH]; cbn.
  - intros [H|[]]. inversion H. auto.
  - destruct (String.eqb k0 k) eqn:E; cbn.
    + apply String.eqb_eq in E. subst. intros [H|H]; [inversion H|]; auto.
    + intros [H|H]; auto. destruct (IH H); auto.
Qed.

Lemma dict_set_keys {V : Type} (k : string) (v : V) (d : dict V) :
  NoDup (map fst d) -> NoDup (map fst (dict_set k v d)).
Proof.
  induction d as [|[k0 v0] d IH]; cbn; intros Hnd.
  - repeat constructor. intros [].
  - inversion Hnd as [|? ? Hnotin Hnd']; subst.
    destruct (String.eqb k0 k) eqn:E; cbn; [now constructor|].
    constructor; [|auto]. intros Hin.
    apply in_map_iff in Hin as ([k1 v1] & Hk & Hin).
    cbn in Hk. subst k1. apply dict_set_in in Hin as [[-> _]|Hin].
    + now rewrite String.eqb_refl in E.
    + apply Hnotin. apply in_map_iff. now exists (k0, v1).
Qed.

Lemma existing_by_name_raised (l : list json) :
  fold_left existing_by_name_step l Raised = Raised.
Proof. induction l; cbn; auto. Qed.

(** One turn of the loop that fills [existing_by_name]. *)
Lemma existing_by_name_step_inv (acc index : dict (dict json)) (item : json) :
  existing_by_name_step (Ok acc) item = Ok index ->
  exists d k,
    item = JObj d
    /\ normalize_name (get_default "name" (JStr "") d) = Ok k
    /\ index = if String.eqb k "" then acc else dict_set k d acc.
Proof.
  destruct item as [| | | | | |d]; try discriminate.
  cbn [existing_by_name_step bind].
  destruct (normalize_name _) as [k|] eqn:Hk; [|discriminate]. cbn [bind].
  intros H. exists d, k. repeat split; auto.
  destruct (String.eqb k ""); cbn [negb] in H; now injection H as <-.
Qed.

Lemma existing_by_name_invariant (l : list json) :
  forall acc index,
    fold_left existing_by_name_step l (Ok acc) = Ok index ->
    NoDup (map fst acc) ->
    NoDup (map fst index)
    /\ forall k d,
         In (k, d) index ->
         In (k, d) acc
         \/ (k <> ""
             /\ In (JObj d) l
             /\ normalize_name (get_default "name" (JStr "") d) = Ok k).
Proof.
  induction l as [|item l IH]; intros acc index.
  - cbn. intros H Hnd. injection H as <-. auto.
  - cbn [fold_left].
    destruct (existing_by_name_step (Ok acc) item) as [acc'|] eqn:Hstep;
      [|rewrite existing_by_name_raised; discriminate].
    intros Hfold Hnd.
    apply existing_by_name_step_inv in Hstep as (d0 & k0 & -> & Hk0 & ->).
    destruct (String.eqb k0 "") eqn:E.
    + destruct (IH _ _ Hfold Hnd) as [Hnd' Hin]. split; [assumption|].
      intros k d Hkd. destruct (Hin k d Hkd) as [|(? & ? & ?)]; auto.
      right. repeat split; auto. now right.
    + destruct (IH _ _ Hfold (dict_set_keys _ _ _ Hnd)) as [Hnd' Hin].
      split; [assumption|]. intros k d Hkd.
      destruct (Hin k d Hkd) as [Hset|(? & ? & ?)].
      * apply dict_set_in in Hset as [[-> ->]|]; auto.
        right. apply String.eqb_neq in E. repeat split; auto. now left.
      * right. repeat split; auto. now right.
Qed.

(** X12: the index that [main] builds from the existing items has no key
    twice and no empty key, and each entry is an existing item stored under
    the normalized form of its own name. *)
Theorem existing_by_name_well_formed (existing_items : list json)
  (index : dict (dict json)) :
  fold_left existing_by_name_step existing_items (Ok []) = Ok index ->
  NoDup (map fst index)
  /\ forall k d,
       In (k, d) index ->
       k <> ""
       /\ In (JObj d) existing_items
       /\ normalize_name (get_default "name" (JStr "") d) = Ok k.
Proof.
  intros H.
  destruct (existing_by_name_invariant _ _ _ H (NoDup_nil _)) as [Hnd Hin].
  split; [assumption|]. intros k d Hkd.
  destruct (Hin k d Hkd) as [[]|]; assumption.
Qed.

Lemma existing_by_name_well_formed_witness :
  NoDup (map fst [("axe", axe); ("ironplate", iron_plate)])
  /\ forall k d,
       In (k, d) [("axe", axe); ("ironplate", iron_plate)] ->
       k <> ""
       /\ In (JObj d) [JObj axe; JObj [("name", JStr "!!")]; JObj iron_plate]
       /\ normalize_name (get_default "name" (JStr "") d) = Ok k.
Proof.
  apply (existing_by_name_well_formed
           [JObj axe; JObj [("name", JStr "!!")]; JObj iron_plate]).
  reflexivity.
Defined.

Lemma existing_by_name_keeps (k : string) (l : list json) :
  forall acc index,
    fold_left existing_by_name_step l (Ok acc) = Ok index ->
    (forall d, In (JObj d) l ->
       normalize_name (get_default "name" (JStr "") d) <> Ok k) ->
    dict_get k index = dict_get k acc.
Proof.
  induction l as [|item l IH]; intros acc index.
  - cbn. intros H _. now injection H as <-.
  - cbn [fold_left].
    destruct (existing_by_name_step (Ok acc) item) as [acc'|] eqn:Hstep;
      [|rewrite existing_by_name_raised; discriminate].
    intros Hfold Hother.
    apply existing_by_name_step_inv in Hstep as (d0 & k0 & -> & Hk0 & ->).
    rewrite (IH _ _ Hfold) by (intros; apply Hother; now right).
    destruct (String.eqb k0 ""); [reflexivity|].
    apply dict_get_set_other. intros ->.
    apply (Hother d0); [now left | assumption].
Qed.

Lemma existing_by_name_prefix (l1 l2 : list json) (index : dict (dict json)) :
  fold_left existing_by_name_step (l1 ++ l2) (Ok []) = Ok index ->
  exists acc,
    fold_left existing_by_name_step l1 (Ok []) = Ok acc
    /\ fold_left existing_by_name_step l2 (Ok acc) = Ok index.
Proof.
  rewrite fold_left_app.
  destruct (fold_left existing_by_name_step l1 (Ok [])) as [acc|].
  - eauto.
  - rewrite existing_by_name_raised. discriminate.
Qed.

(** X13: of the existing items that share a normalized name the last one is
    the one the index holds, and looking that item up by its own name
    returns it. *)
Theorem existing_by_name_last_wins (before after : list json)
  (d : dict json) (k : string) (index : dict (dict json)) :
  fold_left existing_by_name_step (before ++ JObj d :: after) (Ok [])
  = Ok index ->
  normalize_name (get_default "name" (JStr "") d) = Ok k ->
  k <> "" ->
  (forall d', In (JObj d') after ->
     normalize_name (get_default "name" (JStr "") d') <> Ok k) ->
  dict_get k index = Some d
  /\ find_existing_item (get_default "name" (JStr "") d) index = Ok (Some d).
Proof.
  intros Hfold Hk Hne Hafter.
  apply existing_by_name_prefix in Hfold as (acc & _ & Hfold).
  cbn [fold_left] in Hfold.
  destruct (existing_by_name_step (Ok acc) (JObj d)) as [acc'|] eqn:Hstep;
    [|rewrite existing_by_name_raised in Hfold; discriminate].
  apply existing_by_name_step_inv in Hstep as (d0 & k0 & Hd & Hk0 & ->).
  injection Hd as <-. assert (k0 = k) by congruence. subst k0.
  apply String.eqb_neq in Hne. rewrite Hne in Hfold.
  assert (Hget : dict_get k index = Some d).
  { rewrite (existing_by_name_keeps k _ _ _ Hfold Hafter).
    apply dict_get_set_same. }
  split; [assumption|].
  unfold find_existing_item. rewrite Hk. cbn [bind]. now rewrite Hget.
Qed.

Lemma existing_by_name_last_wins_witness :
  dict_get "axe"
    [("axe", [("name", JStr "AXE")]); ("ironplate", iron_plate)]
  = Some [("name", JStr "AXE")]
  /\ find_existing_item (JStr "AXE")
       [("axe", [("name", JStr "AXE")]); ("ironplate", iron_plate)]
     = Ok (Some [("name", JStr "AXE")]).
Proof.
  apply (existing_by_name_last_wins [JObj axe] [JObj iron_plate]
           [("name", JStr "AXE")] "axe"
           [("axe", [("name", JStr "AXE")]); ("ironplate", iron_plate)]);
    try reflexivity; try discriminate.
  intros d' [H|[]]. injection H as <-. discriminate.
Defined.

(** * Further properties: parse_found_in and id_to_display_name *)

Lemma lstrip_idempotent (s : string) : lstrip (lstrip s) = lstrip s.
Proof.
  induction s as [|c s IH]; cbn; [reflexivity|].
  destruct (is_space c) eqn:E; [assumption|]. cbn. now rewrite E.
Qed.

Lemma lstrip_length (s : string) : String.length (lstrip s) <= String.length s.
Proof.
  induction s as [|c s IH]; cbn; [lia|].
  destruct (is_space c); cbn; lia.
Qed.

Lemma rstrip_idempotent (s : string) : rstrip (rstrip s) = rstrip s.
Proof.
  induction s as [|c s IH]; cbn; [reflexivity|].
  destruct (rstrip s) as [|c' r] eqn:E.
  - destruct (is_space c) eqn:Ec; cbn; [reflexivity|]. now rewrite Ec.
  - change (rstrip (String c (String c' r)))
      with (match rstrip (String c' r) with
            | EmptyString =>
                if is_space c then EmptyString else String c EmptyString
            | String c0 r0 => String c (String c0 r0)
            end).
    now rewrite IH.
Qed.

Lemma lstrip_rstrip_fixed (t : string) :
  lstrip t = t -> lstrip (rstrip t) = rstrip t.
Proof.
  destruct t as [|c t]; [reflexivity|]. cbn [lstrip].
  destruct (is_space c) eqn:Ec.
  - intros H. pose proof (lstrip_length t) as Hlen. rewrite H in Hlen.
    cbn in Hlen. lia.
  - intros _. cbn [rstrip].
    destruct (rstrip t); rewrite ?Ec; cbn [lstrip]; now rewrite Ec.
Qed.

Lemma strip_idempotent (s : string) : strip (strip s) = strip s.
Proof.
  unfold strip.
  rewrite (lstrip_rstrip_fixed (lstrip s) (lstrip_idempotent s)).
  apply rstrip_idempotent.
Qed.

Lemma lstrip_chars (c : ascii) (s : string) :
  In c (list_ascii_of_string (lstrip s)) -> In c (list_ascii_of_string s).
Proof.
  induction s as [|c0 s IH]; cbn; [auto|].
  destruct (is_space c0); cbn; auto.
Qed.

Lemma rstrip_chars (c : ascii) (s : string) :
  In c (list_ascii_of_string (rstrip s)) -> In c (list_ascii_of_string s).
Proof.
  induction s as [|c0 s IH]; cbn; [auto|].
  destruct (rstrip s) as [|c' r].
  - destruct (is_space c0); cbn; [intros []|intros [H|[]]; auto].
  - cbn. intros [H|H]; auto.
Qed.

Lemma split_commas_chars (s : string) :
  Forall (fun w => ~ In ","%char (list_ascii_of_string w)) (split_commas s).
Proof.
  induction s as [|c s IH]; cbn.
  - repeat constructor. intros [].
  - destruct (Ascii.eqb_spec c ","%char) as [->|Hc].
    + constructor; [intros []|assumption].
    + destruct (split_commas s) as [|w ws].
      * repeat constructor. cbn. intros [H|[]]. congruence.
      * inversion IH; subst. constructor; [|assumption].
        cbn. intros [H|H]; [congruence|contradiction].
Qed.

(** X14: every location that [parse_found_in] returns is non-empty, has no
    white space at either end and holds no comma. *)
Theorem parse_found_in_fragments (found_in_str : json) (l : list string) :
  parse_found_in found_in_str = Ok l ->
  Forall (fun loc =>
            loc <> "" /\ strip loc = loc
            /\ ~ In ","%char (list_ascii_of_string loc)) l.
Proof.
  unfold parse_found_in. destruct (negb (truthy found_in_str)).
  - intros H. injection H as <-. constructor.
  - destruct found_in_str; try discriminate. intros H. injection H as <-.
    apply Forall_map. apply Forall_forall. intros w Hw.
    apply filter_In in Hw as [Hin Hne].
    apply negb_true_iff, String.eqb_neq in Hne.
    repeat split; [assumption | apply strip_idempotent |].
    intros Hc. apply rstrip_chars, lstrip_chars in Hc.
    pose proof (split_commas_chars s) as Hall.
    rewrite Forall_forall in Hall. now apply (Hall w Hin).
Qed.

Lemma parse_found_in_fragments_witness :
  Forall (fun loc =>
            loc <> "" /\ strip loc = loc
            /\ ~ In ","%char (list_ascii_of_string loc))
    ["Dam"; "Blue Gate"].
Proof.
  apply (parse_found_in_fragments (JStr "Dam, , Blue Gate ,")). reflexivity.
Defined.













(** * Further properties: auto_recommend *)

Lemma get_default_set_other (k k0 : string) (v default : json) (d : dict json) :
  k <> k0 -> get_default k0 default (dict_set k v d) = get_default k0 default d.
Proof. intros H. unfold get_default. now rewrite dict_get_set_other. Qed.

(** X16: when one of the first four rules decides, the recommendation is
    "Keep" or "Sell", the function does not raise, and [recyclesInto] has no
    influence on the result. *)
Theorem auto_recommend_early_rules (item : dict json) :
  past_rule_4 item = false ->
  exists r,
    auto_recommend item = Ok r
    /\ (r = "Keep" \/ r = "Sell")
    /\ forall v, auto_recommend (dict_set "recyclesInto" v item) = Ok r.
Proof.
  unfold past_rule_4, auto_recommend. cbv zeta. intros Hpast.
  assert (Ht : forall v default,
             get_default "type" default (dict_set "recyclesInto" v item)
             = get_default "type" default item)
    by (intros; apply get_default_set_other; discriminate).
  assert (Hr : forall v default,
             get_default "rarity" default (dict_set "recyclesInto" v item)
             = get_default "rarity" default item)
    by (intros; apply get_default_set_other; discriminate).
  destruct (in_strs (get_default "type" (JStr "") item) ["Key"; "Quest Item"])
    eqn:E1;
    [exists "Keep"; repeat split; auto; intros v; now rewrite Ht, E1|].
  destruct (eq_str (get_default "type" (JStr "") item) "Valuable") eqn:E2;
    [exists "Sell"; repeat split; auto; intros v; now rewrite Ht, E1, E2|].
  destruct (in_strs (get_default "rarity" (JStr "Common") item)
              ["Rare"; "Epic"; "Legendary"]) eqn:E3;
    [exists "Keep"; repeat split; auto; intros v;
     now rewrite Ht, Hr, E1, E2, E3|].
  destruct (in_strs (get_default "type" (JStr "") item)
              ["Quick Use"; "Consumable"]) eqn:E4;
    [exists "Keep"; repeat split; auto; intros v;
     now rewrite Ht, Hr, E1, E2, E3, E4|].
  discriminate.
Qed.

Lemma auto_recommend_early_rules_witness :
  exists r,
    auto_recommend legendary_junk = Ok r
    /\ (r = "Keep" \/ r = "Sell")
    /\ forall v,
         auto_recommend (dict_set "recyclesInto" v legendary_junk) = Ok r.
Proof. apply (auto_recommend_early_rules legendary_junk). reflexivity. Defined.

(** X17: [auto_recommend] raises exactly when the first four rules do not
    decide and [recyclesInto] is a truthy value without a length (a number
    or [True]). *)
Theorem auto_recommend_raises_iff (item : dict json) :
  auto_recommend item = Raised
  <-> past_rule_4 item = true
      /\ exists v,
           dict_get "recyclesInto" item = Some v
           /\ truthy v = true /\ py_len v = Raised.
Proof.
  unfold past_rule_4, auto_recommend. cbv zeta.
  destruct (in_strs (get_default "type" (JStr "") item) ["Key"; "Quest Item"]);
    [split; [|intros []]; discriminate|].
  destruct (eq_str (get_default "type" (JStr "") item) "Valuable");
    [split; [|intros []]; discriminate|].
  destruct (in_strs (get_default "rarity" (JStr "Common") item)
              ["Rare"; "Epic"; "Legendary"]);
    [split; [|intros []]; discriminate|].
  destruct (in_strs (get_default "type" (JStr "") item)
              ["Quick Use"; "Consumable"]);
    [split; [|intros []]; discriminate|].
  cbn [negb andb]. unfold get_default at 1, has_entries.
  destruct (dict_get "recyclesInto" item) as [v|].
  - destruct (truthy v) eqn:T.
    + destruct (py_len v) as [n|] eqn:L; cbn [bind].
      * split.
        -- repeat match goal with
                  | |- context [if ?b then _ else _] => destruct b
                  end; discriminate.
        -- intros [_ (v' & Hv & _ & Hl)]. injection Hv as <-. congruence.
      * split; [|reflexivity]. intros _. split; [reflexivity|]. eauto.
    + cbn [bind]. split.
      * match goal with
        | |- context [if ?b then _ else _] => destruct b
        end; discriminate.
      * intros [_ (v' & Hv & Ht & _)]. injection Hv as <-. congruence.
  - cbn. split.
    + match goal with
      | |- context [if ?b then _ else _] => destruct b
      end; discriminate.
    + intros [_ (v' & Hv & _)]. discriminate.
Qed.

(** * Further properties: transform_item *)

(** X18: every output record has the sixteen fields of the local schema, in
    the same order, whatever the raw and the existing record hold. *)
Theorem transform_item_fields (py_repr : json -> string)
  (rt_item : dict json) (id_to_name_map : dict string)
  (existing_item : option (dict json)) (out : dict json) :
  transform_item py_repr rt_item id_to_name_map existing_item = Ok out ->
  map fst out = output_fields.
Proof.
  unfold transform_item.
  destruct (base_item py_repr rt_item id_to_name_map) as [item|] eqn:Hbase;
    [|discriminate].
  apply base_item_inv in Hbase as (? & ? & ? & _ & _ & _ & ->).
  cbn [bind]. destruct existing_item as [[|e0 existing]|].
  - destruct (auto_recommend rt_item); [|discriminate].
    cbn [bind]. intros H. now injection H as <-.
  - destruct (get_or_null "recycleValuePercent" (e0 :: existing));
      intros H; now injection H as <-.
  - destruct (auto_recommend rt_item); [|discriminate].
    cbn [bind]. intros H. now injection H as <-.
Qed.

Lemma transform_item_fields_witness :
  exists out,
    transform_item (fun _ => "") legendary_junk [] (Some curated_junk) = Ok out
    /\ map fst out = output_fields.
Proof.
  eexists. split; [vm_compute; reflexivity|].
  apply (transform_item_fields (fun _ => "") legendary_junk []
           (Some curated_junk)). reflexivity.
Defined.

Lemma recycle_fold_comparable (id_to_name_map : dict string) (m : dict json) :
  forall acc d,
    fold_left (recycle_step id_to_name_map) m (Ok acc) = Ok d ->
    forallb (fun e => comparable (snd e)) m = true.
Proof.
  induction m as [|[id c] m IH]; intros acc d; [reflexivity|].
  cbn [fold_left forallb snd]. rewrite recycle_step_unfold.
  unfold comparable at 1.
  destruct (gt_zero c) as [[|]|];
    [ | | rewrite recycle_fold_raised; discriminate ];
    intros H; cbn [andb]; eapply IH; eassumption.
Qed.

Lemma recycle_outputs_of_well_formed (id_to_name_map : dict string)
  (rt_item : dict json) (ro : json) :
  recycle_outputs_of (get_default "recyclesInto" (JObj []) rt_item)
    id_to_name_map = Ok ro ->
  match get_default "recyclesInto" (JObj []) rt_item with
  | JObj m => forallb (fun e => comparable (snd e)) m
  | v => negb (truthy v)
  end = true.
Proof.
  destruct (get_default "recyclesInto" (JObj []) rt_item) as [|b|z|f|s|l|m];
    try reflexivity.
  - unfold recycle_outputs_of, has_entries. destruct (truthy (JBool b)); auto.
    discriminate.
  - unfold recycle_outputs_of, has_entries. destruct (truthy (JInt z)); auto.
    discriminate.
  - unfold recycle_outputs_of, has_entries. destruct (truthy (JFloat f)); auto.
    discriminate.
  - destruct s; [reflexivity|discriminate].
  - destruct l; [reflexivity|discriminate].
  - intros H. apply recycle_outputs_of_obj in H as (d & Hfold & _).
    now apply recycle_fold_comparable in Hfold.
Qed.

(** X19: [transform_item] returns exactly on the well-formed raw records: the
    type is not a list or a dictionary, [recyclesInto] is falsy or a
    dictionary of numbers, [foundIn] is falsy or a string. *)
Theorem transform_item_returns_iff (py_repr : json -> string)
  (rt_item : dict json) (id_to_name_map : dict string)
  (existing_item : option (dict json)) :
  (exists out,
      transform_item py_repr rt_item id_to_name_map existing_item = Ok out)
  <-> raw_well_formed rt_item = true.
Proof.
  split.
  - intros [out Hout].
    apply transform_item_inv in Hout as (item & Hbase & _).
    apply base_item_inv in Hbase as (c & ro & fi & Hc & Hro & Hfi & _).
    unfold raw_well_formed.
    apply recycle_outputs_of_well_formed in Hro. rewrite Hro.
    assert (Ht : match get_default "type" (JStr "Material") rt_item with
                 | JList _ | JObj _ => false
                 | _ => true
                 end = true)
      by (destruct (get_default "type" (JStr "Material") rt_item);
          auto; discriminate Hc).
    rewrite Ht. cbn [andb]. unfold parse_found_in in Hfi.
    destruct (get_default "foundIn" (JStr "") rt_item); try reflexivity;
      match goal with
      | |- ?b = true => destruct b; [reflexivity | discriminate Hfi]
      end.
  - intros Hwf.
    destruct (base_item_returns py_repr id_to_name_map _ Hwf) as [item Hitem].
    now apply (transform_item_returns _ _ _ item).
Qed.

Lemma recycle_outputs_of_shape (id_to_name_map : dict string) (v ro : json) :
  recycle_outputs_of v id_to_name_map = Ok ro ->
  ro = JNull \/ exists e d, ro = JObj (e :: d).
Proof.
  unfold recycle_outputs_of. destruct (has_entries v) as [[|]|];
    cbn [bind]; try discriminate.
  - destruct v; try discriminate.
    destruct (fold_left _ _ _) as [[|e d']|]; cbn [bind]; try discriminate;
      intros H; injection H as <-; eauto.
  - intros H. injection H as <-. now left.
Qed.

(** X20: an output never holds an empty list of locations or an empty
    dictionary of recycle outputs: [foundIn] is null or a non-empty list of
    strings, [recycleOutputs] is null or a non-empty dictionary. *)
Theorem transform_item_never_empty (py_repr : json -> string)
  (rt_item : dict json) (id_to_name_map : dict string)
  (existing_item : option (dict json)) (out : dict json) :
  transform_item py_repr rt_item id_to_name_map existing_item = Ok out ->
  (dict_get "foundIn" out = Some JNull
   \/ exists loc l,
        dict_get "foundIn" out = Some (JList (JStr loc :: map JStr l)))
  /\ (dict_get "recycleOutputs" out = Some JNull
      \/ exists e d, dict_get "recycleOutputs" out = Some (JObj (e :: d))).
Proof.
  intros Hout. apply transform_item_inv in Hout as (item & Hbase & Hsame).
  rewrite Forall_forall in Hsame.
  rewrite (Hsame "foundIn"), (Hsame "recycleOutputs") by (cbn; auto 12).
  apply base_item_inv in Hbase as (c & ro & fi & _ & Hro & _ & ->).
  split.
  - destruct fi as [|loc l]; [now left|]. right. now exists loc, l.
  - apply recycle_outputs_of_shape in Hro as [->|(e & d & ->)];
      [now left|right; exists e, d; reflexivity].
Qed.

Lemma transform_item_never_empty_witness :
  exists out,
    transform_item (fun _ => "")
      [("name", JObj [("en", JStr "Junk")]); ("foundIn", JStr " , ,");
       ("recyclesInto", JObj [("scrap", JInt 0)])] [] None = Ok out
    /\ (dict_get "foundIn" out = Some JNull
        \/ exists loc l,
             dict_get "foundIn" out = Some (JList (JStr loc :: map JStr l)))
    /\ (dict_get "recycleOutputs" out = Some JNull
        \/ exists e d, dict_get "recycleOutputs" out = Some (JObj (e :: d))).
Proof.
  eexists. split; [vm_compute; reflexivity|].
  apply (transform_item_never_empty (fun _ => "")
           [("name", JObj [("en", JStr "Junk")]); ("foundIn", JStr " , ,");
            ("recyclesInto", JObj [("scrap", JInt 0)])] [] None).
  reflexivity.
Defined.

Lemma category_of_range (rt_type c : json) :
  category_of rt_type = Ok c ->
  exists s, c = JStr s /\ In s categories.
Proof.
  unfold categories.
  destruct rt_type as [| | | |s| |]; cbn [category_of]; try discriminate;
    intros H; injection H as <-;
    try (exists "Material"; split; [reflexivity|now left]).
  eexists. split; [reflexivity|].
  unfold get_default, CATEGORY_MAP. cbn [dict_get].
  repeat match goal with
         | |- context [if ?b then _ else _] => destruct b
         end; cbn; auto 20.
Qed.

(** X21: the category of an output is one of the eleven categories of the
    local catalog, and "Material" when the raw type is missing or is not a
    key of the category table. *)
Theorem transform_item_category (py_repr : json -> string)
  (rt_item : dict json) (id_to_name_map : dict string)
  (existing_item : option (dict json)) (out : dict json) :
  transform_item py_repr rt_item id_to_name_map existing_item = Ok out ->
  (exists c, dict_get "category" out = Some (JStr c) /\ In c categories)
  /\ (dict_get "type" rt_item = None
      \/ (exists s, dict_get "type" rt_item = Some (JStr s)
                    /\ dict_get s CATEGORY_MAP = None) ->
      dict_get "category" out = Some (JStr "Material")).
Proof.
  intros Hout. apply transform_item_inv in Hout as (item & Hbase & Hsame).
  rewrite Forall_forall in Hsame.
  rewrite (Hsame "category") by (cbn; auto 12).
  apply base_item_inv in Hbase as (c & ro & fi & Hc & _ & _ & ->).
  change (dict_get "category" _) with (Some c). split.
  - apply category_of_range in Hc as (s & -> & Hin). eauto.
  - unfold get_default in Hc. intros [Hnone|(s & Hs & Hmap)].
    + rewrite Hnone in Hc. cbn in Hc. congruence.
    + rewrite Hs in Hc. cbn in Hc. unfold get_default in Hc.
      rewrite Hmap in Hc. congruence.
Qed.

Lemma transform_item_category_witness :
  exists out,
    transform_item (fun _ => "")
      [("name", JObj [("en", JStr "Gizmo")]); ("type", JStr "Gadget")] []
      None = Ok out
    /\ dict_get "category" out = Some (JStr "Material").
Proof.
  eexists. split; [vm_compute; reflexivity|].
  apply (transform_item_category (fun _ => "")
           [("name", JObj [("en", JStr "Gizmo")]); ("type", JStr "Gadget")] []
           None _ eq_refl).
  right. exists "Gadget". split; reflexivity.
Defined.

(** X22: without an existing record, or with an empty one, the output has
    empty use lists, [keepForQuests] false, a null [recycleValuePercent], and
    the recommendation of [auto_recommend]. *)
Theorem transform_item_new_defaults (py_repr : json -> string)
  (rt_item : dict json) (id_to_name_map : dict string)
  (existing_item : option (dict json)) (out : dict json) :
  existing_item = None \/ existing_item = Some [] ->
  transform_item py_repr rt_item id_to_name_map existing_item = Ok out ->
  dict_get "projectUses" out = Some (JList [])
  /\ dict_get "workshopUses" out = Some (JList [])
  /\ dict_get "keepForQuests" out = Some (JBool false)
  /\ dict_get "questUses" out = Some (JList [])
  /\ dict_get "recycleValuePercent" out = Some JNull
  /\ exists r,
       auto_recommend rt_item = Ok r
       /\ dict_get "recommendation" out = Some (JStr r).
Proof.
  unfold transform_item.
  destruct (base_item py_repr rt_item id_to_name_map) as [item|] eqn:Hbase;
    [|intros _; discriminate].
  apply base_item_inv in Hbase as (? & ? & ? & _ & _ & _ & ->).
  cbn [bind]. intros [->| ->];
    (destruct (auto_recommend rt_item) as [r|]; [|discriminate]);
    cbn [bind]; intros H; injection H as <-; repeat split; eauto.
Qed.

Lemma transform_item_new_defaults_witness :
  exists out,
    transform_item (fun _ => "") legendary_junk [] (Some []) = Ok out
    /\ dict_get "recycleValuePercent" out = Some JNull
    /\ dict_get "recommendation" out = Some (JStr "Sell").
Proof.
  eexists. split; [vm_compute; reflexivity|].
  destruct (transform_item_new_defaults (fun _ => "") legendary_junk []
              (Some []) _ (or_intror eq_refl) eq_refl)
    as (_ & _ & _ & _ & Hpercent & _).
  split; [exact Hpercent|reflexivity].
Defined.

(** X23: a non-empty existing record that lacks a curator-owned field gets
    that field's fixed default in the output; a missing recommendation
    becomes "Either", and [auto_recommend] is not consulted. *)
Theorem transform_item_existing_defaults (py_repr : json -> string)
  (rt_item : dict json) (id_to_name_map : dict string)
  (existing out : dict json) :
  existing <> [] ->
  transform_item py_repr rt_item id_to_name_map (Some existing) = Ok out ->
  (dict_get "projectUses" existing = None ->
   dict_get "projectUses" out = Some (JList []))
  /\ (dict_get "workshopUses" existing = None ->
      dict_get "workshopUses" out = Some (JList []))
  /\ (dict_get "keepForQuests" existing = None ->
      dict_get "keepForQuests" out = Some (JBool false))
  /\ (dict_get "questUses" existing = None ->
      dict_get "questUses" out = Some (JList []))
  /\ (dict_get "recommendation" existing = None ->
      dict_get "recommendation" out = Some (JStr "Either")).
Proof.
  intros Hne Hout.
  destruct (transform_item_existing_fields py_repr id_to_name_map _ _ _ Hne
              Hout)
    as (Hp & Hw & Hk & Hq & Hr & _).
  rewrite Hp, Hw, Hk, Hq, Hr. unfold get_default.
  repeat split; intros ->; reflexivity.
Qed.

Lemma transform_item_existing_defaults_witness :
  exists out,
    transform_item (fun _ => "") zero_count_item [] (Some iron_plate) = Ok out
    /\ dict_get "recommendation" out = Some (JStr "Either").
Proof.
  eexists. split; [vm_compute; reflexivity|].
  apply (transform_item_existing_defaults (fun _ => "") zero_count_item []
           iron_plate); [discriminate|reflexivity|reflexivity].
Defined.

(** * Further properties: main *)

Lemma merge_step_raised (py_repr : json -> string) (tbl : dict string)
  (index : dict (dict json)) (l : dict (dict json)) :
  fold_left (merge_step py_repr tbl index) l Raised = Raised.
Proof. induction l; cbn; auto. Qed.

(** One turn of the merge loop: the record is skipped, or it is matched,
    transformed and appended. *)
Lemma merge_step_inv (py_repr : json -> string) (tbl : dict string)
  (index : dict (dict json)) (merged_items merged_items' : list (dict json))
  (st st' : stats) (entry : string * dict json) :
  merge_step py_repr tbl index (Ok (merged_items, st)) entry
  = Ok (merged_items', st') ->
  (truthy (english py_repr "name" (snd entry)) = false
   /\ merged_items' = merged_items
   /\ st' = mk_stats (updated st) (added st) (skipped st + 1))
  \/ exists existing merged,
       truthy (english py_repr "name" (snd entry)) = true
       /\ find_existing_item (english py_repr "name" (snd entry)) index
          = Ok existing
       /\ transform_item py_repr (snd entry) tbl existing = Ok merged
       /\ merged_items' = merged_items ++ [merged]
       /\ st' = match existing with
                | Some (_ :: _) =>
                    mk_stats (updated st + 1) (added st) (skipped st)
                | _ => mk_stats (updated st) (added st + 1) (skipped st)
                end.
Proof.
  unfold merge_step. cbn [bind].
  destruct (truthy (english py_repr "name" (snd entry))) eqn:T; cbn [negb].
  - destruct (find_existing_item _ index) as [existing|] eqn:Hfind;
      [|discriminate].
    cbn [bind].
    destruct (transform_item py_repr (snd entry) tbl existing) as [merged|]
      eqn:Htrans; [|discriminate].
    cbn [bind]. intros H. right. exists existing, merged.
    split; [reflexivity|]. split; [reflexivity|]. split; [assumption|].
    destruct existing as [[|e0 ex]|]; injection H as <- <-; split; reflexivity.
  - intros H. injection H as <- <-. now left.
Qed.

Lemma merge_loop_counts (py_repr : json -> string) (tbl : dict string)
  (index : dict (dict json)) (l : dict (dict json)) :
  forall merged_items st merged_items' st',
    fold_left (merge_step py_repr tbl index) l (Ok (merged_items, st))
    = Ok (merged_items', st') ->
    updated st' + added st' + List.length merged_items
    = updated st + added st + List.length merged_items'
    /\ List.length merged_items' + skipped st'
       = List.length merged_items + skipped st + List.length l.
Proof.
  induction l as [|entry l IH]; intros m st m' st'.
  - cbn. intros H. injection H as <- <-. lia.
  - cbn [fold_left].
    destruct (merge_step py_repr tbl index (Ok (m, st)) entry)
      as [[m1 st1]|] eqn:Hstep; [|rewrite merge_step_raised; discriminate].
    intros Hfold. apply IH in Hfold as [H1 H2].
    apply merge_step_inv in Hstep
      as [(_ & -> & ->)|(existing & merged & _ & _ & _ & -> & ->)].
    + cbn in *. lia.
    + rewrite length_app in *.
      destruct existing as [[|e0 ex]|]; cbn in *; lia.
Qed.

Lemma with_keys_map (l : list (dict json)) (keyed : list (string * dict json)) :
  with_keys l = Ok keyed -> map snd keyed = l.
Proof.
  revert keyed. induction l as [|x l IH]; intros keyed; cbn.
  - intros H. now injection H as <-.
  - destruct (sort_key x); [|discriminate]. cbn [bind].
    destruct (with_keys l) as [rest|]; [|discriminate]. cbn [bind].
    intros H. injection H as <-. cbn. now rewrite (IH rest).
Qed.

Lemma insert_by_key_perm (kx : string * dict json)
  (l : list (string * dict json)) :
  Permutation (insert_by_key kx l) (kx :: l).
Proof.
  induction l as [|ky l IH]; cbn; [reflexivity|].
  destruct (String.ltb (fst ky) (fst kx)); [|reflexivity].
  rewrite IH. apply perm_swap.
Qed.

Lemma sort_by_key_perm (l : list (string * dict json)) :
  Permutation (sort_by_key l) l.
Proof.
  induction l as [|kx l IH]; cbn; [reflexivity|].
  rewrite insert_by_key_perm. now constructor.
Qed.

Lemma string_ltb_irrefl (a : string) : String.ltb a a = false.
Proof.
  unfold String.ltb. destruct (String.compare a a) eqn:E; auto.
  pose proof (String.compare_antisym a a) as H. rewrite E in H. discriminate.
Qed.

Lemma insert_by_key_filter (k : string) (kx : string * dict json)
  (l : list (string * dict json)) :
  filter (fun e => String.eqb (fst e) k) (insert_by_key kx l)
  = filter (fun e => String.eqb (fst e) k) (kx :: l).
Proof.
  induction l as [|ky l IH]; [reflexivity|]. cbn [insert_by_key].
  destruct (String.ltb (fst ky) (fst kx)) eqn:Hlt; [|reflexivity].
  cbn [filter] in *. rewrite IH.
  destruct (String.eqb_spec (fst ky) k) as [Hy|]; [|reflexivity].
  destruct (String.eqb_spec (fst kx) k) as [Hx|]; [|reflexivity].
  rewrite Hy, Hx, string_ltb_irrefl in Hlt. discriminate.
Qed.

Lemma sort_by_key_filter (k : string) (l : list (string * dict json)) :
  filter (fun e => String.eqb (fst e) k) (sort_by_key l)
  = filter (fun e => String.eqb (fst e) k) l.
Proof.
  induction l as [|kx l IH]; [reflexivity|]. cbn [sort_by_key fold_right].
  rewrite insert_by_key_filter. cbn [filter].
  fold (sort_by_key l). now rewrite IH.
Qed.

Lemma filter_keyed (k : string) (l : list (string * dict json)) :
  (forall k' x, In (k', x) l -> sort_key x = Ok k') ->
  filter (has_sort_key k) (map snd l)
  = map snd (filter (fun e => String.eqb (fst e) k) l).
Proof.
  induction l as [|[k' x] l IH]; intros H; [reflexivity|].
  cbn [map filter snd fst]. unfold has_sort_key at 1.
  rewrite (H k' x) by now left.
  rewrite IH by (intros; apply H; now right).
  destruct (String.eqb k' k); reflexivity.
Qed.

Lemma sort_by_name_perm (merged_items out : list (dict json)) :
  sort_by_name merged_items = Ok out -> Permutation out merged_items.
Proof.
  unfold sort_by_name.
  destruct (with_keys merged_items) as [keyed|] eqn:Hkeys; [|discriminate].
  cbn [bind]. intros H. injection H as <-.
  rewrite <- (with_keys_map _ _ Hkeys).
  apply Permutation_map, sort_by_key_perm.
Qed.

(** X24: the sort of the merged list keeps every record, and records with
    the same lower-cased name stay in the order they had. *)
Theorem sort_by_name_stable (merged_items out : list (dict json)) :
  sort_by_name merged_items = Ok out ->
  Permutation out merged_items
  /\ forall k,
       filter (has_sort_key k) out = filter (has_sort_key k) merged_items.
Proof.
  intros Hsort. split; [now apply sort_by_name_perm|]. revert Hsort.
  unfold sort_by_name.
  destruct (with_keys merged_items) as [keyed|] eqn:Hkeys; [|discriminate].
  cbn [bind]. intros H k. injection H as <-.
  rewrite <- (with_keys_map _ _ Hkeys).
  rewrite !filter_keyed, ?sort_by_key_filter; auto.
  - intros k' x Hin. apply (with_keys_in _ _ Hkeys k' x Hin).
  - intros k' x Hin. apply sort_by_key_in in Hin.
    apply (with_keys_in _ _ Hkeys k' x Hin).
Qed.

Lemma sort_by_name_stable_witness :
  sort_by_name [[("name", JStr "b"); ("value", JInt 1)];
                [("name", JStr "a")];
                [("name", JStr "B"); ("value", JInt 2)]]
  = Ok [[("name", JStr "a")];
        [("name", JStr "b"); ("value", JInt 1)];
        [("name", JStr "B"); ("value", JInt 2)]]
  /\ filter (has_sort_key "b")
       [[("name", JStr "a")];
        [("name", JStr "b"); ("value", JInt 1)];
        [("name", JStr "B"); ("value", JInt 2)]]
     = filter (has_sort_key "b")
         [[("name", JStr "b"); ("value", JInt 1)];
          [("name", JStr "a")];
          [("name", JStr "B"); ("value", JInt 2)]].
Proof.
  split; [reflexivity|].
  apply (sort_by_name_stable
           [[("name", JStr "b"); ("value", JInt 1)];
            [("name", JStr "a")];
            [("name", JStr "B"); ("value", JInt 2)]]).
  reflexivity.
Defined.

Lemma main_inv (py_repr : json -> string) (rt_items : dict (dict json))
  (existing_items : list json) (out : list (dict json)) (st : stats) :
  main py_repr rt_items existing_items = Ok (out, st) ->
  exists tbl index merged_items,
    display_names (fold_left (id_to_name_step py_repr) rt_items []) = Ok tbl
    /\ fold_left existing_by_name_step existing_items (Ok []) = Ok index
    /\ fold_left (merge_step py_repr tbl index) rt_items
         (Ok ([], mk_stats 0 0 0)) = Ok (merged_items, st)
    /\ sort_by_name merged_items = Ok out.
Proof.
  unfold main. cbv zeta.
  destruct (fold_left existing_by_name_step existing_items (Ok []))
    as [index|] eqn:Hindex; [|discriminate].
  cbn [bind].
  destruct (display_names _) as [tbl|] eqn:Htbl; [|discriminate].
  cbn [bind].
  destruct (fold_left _ rt_items (Ok ([], mk_stats 0 0 0)))
    as [[merged_items st']|] eqn:Hmerge; [|discriminate].
  cbn [bind].
  destruct (sort_by_name merged_items) as [sorted|] eqn:Hsort; [|discriminate].
  cbn [bind]. intros H. injection H as <- <-.
  exists tbl, index, merged_items. repeat split; assumption.
Qed.

(** X25: in the report of a run, [updated] and [added] together count the
    records of the output, and with [skipped] they count the raw records. *)
Theorem main_counts (py_repr : json -> string) (rt_items : dict (dict json))
  (existing_items : list json) (out : list (dict json)) (st : stats) :
  main py_repr rt_items existing_items = Ok (out, st) ->
  updated st + added st = List.length out
  /\ updated st + added st + skipped st = List.length rt_items.
Proof.
  intros H. apply main_inv in H as (tbl & index & merged & _ & _ & Hm & Hs).
  apply merge_loop_counts in Hm as [H1 H2].
  apply sort_by_name_perm, Permutation_length in Hs. cbn in *. lia.
Qed.

Lemma main_counts_witness :
  exists out st,
    main (fun _ => "")
      (("blank", [("name", JObj [("en", JStr "")])]) :: three_items)
      [JObj [("name", JStr "Mango!")]] = Ok (out, st)
    /\ updated st + added st = List.length out
    /\ updated st + added st + skipped st = 4.
Proof.
  eexists. eexists. split; [vm_compute; reflexivity|].
  apply (main_counts (fun _ => "")
           (("blank", [("name", JObj [("en", JStr "")])]) :: three_items)
           [JObj [("name", JStr "Mango!")]]).
  reflexivity.
Defined.

Lemma merge_loop_names (py_repr : json -> string) (tbl : dict string)
  (index : dict (dict json)) (l : dict (dict json)) :
  forall merged_items st merged_items' st',
    fold_left (merge_step py_repr tbl index) l (Ok (merged_items, st))
    = Ok (merged_items', st') ->
    forall x,
      In x merged_items' ->
      In x merged_items
      \/ exists entry,
           In entry l
           /\ truthy (english py_repr "name" (snd entry)) = true
           /\ dict_get "name" x = Some (english py_repr "name" (snd entry)).
Proof.
  induction l as [|entry l IH]; intros m st m' st'.
  - cbn. intros H. injection H as <- <-. auto.
  - cbn [fold_left].
    destruct (merge_step py_repr tbl index (Ok (m, st)) entry)
      as [[m1 st1]|] eqn:Hstep; [|rewrite merge_step_raised; discriminate].
    intros Hfold x Hx.
    destruct (IH _ _ _ _ Hfold x Hx) as [Hin|(e & He & Ht & Hn)];
      [|right; exists e; repeat split; auto; now right].
    apply merge_step_inv in Hstep
      as [(_ & -> & _)|(existing & merged & Ht & _ & Htr & -> & _)];
      [now left|].
    apply in_app_or in Hin as [Hin|[<-|[]]]; [now left|].
    right. exists entry. split; [now left|]. split; [assumption|].
    apply transform_item_inv in Htr as (item & Hbase & Hsame).
    rewrite Forall_forall in Hsame. rewrite (Hsame "name") by now left.
    now apply base_item_inv in Hbase as (? & ? & ? & _ & _ & _ & ->).
Qed.

(** X26: every record of the output carries a name that is a non-empty
    string, the English name of one of the raw records. *)
Theorem main_output_names (py_repr : json -> string)
  (rt_items : dict (dict json)) (existing_items : list json)
  (out : list (dict json)) (st : stats) :
  main py_repr rt_items existing_items = Ok (out, st) ->
  Forall (fun x =>
            exists s id rt_item,
              dict_get "name" x = Some (JStr s)
              /\ s <> ""
              /\ In (id, rt_item) rt_items
              /\ english py_repr "name" rt_item = JStr s) out.
Proof.
  intros H. apply main_inv in H as (tbl & index & merged & _ & _ & Hm & Hs).
  apply Forall_forall. intros x Hx.
  apply (Permutation_in _ (sort_by_name_perm _ _ Hs)) in Hx.
  destruct (merge_loop_names _ _ _ _ _ _ _ _ Hm x Hx)
    as [[]|([id rt_item] & Hin & Ht & Hn)].
  unfold sort_by_name in Hs.
  destruct (with_keys merged) as [keyed|] eqn:Hkeys; [|discriminate].
  rewrite <- (with_keys_map _ _ Hkeys) in Hx.
  apply in_map_iff in Hx as ([k x'] & Hsnd & Hkx). cbn in Hsnd. subst x'.
  apply (with_keys_in _ _ Hkeys), sort_key_inv in Hkx as (s & Hs' & _).
  cbn [snd] in *. rewrite Hs' in Hn. injection Hn as Hn.
  exists s, id, rt_item. repeat split; auto.
  intros ->. rewrite <- Hn in Ht. discriminate.
Qed.

Lemma main_output_names_witness :
  exists out st,
    main (fun _ => "")
      (("blank", [("name", JObj [("en", JStr "")])]) :: three_items) []
    = Ok (out, st)
    /\ Forall (fun x =>
                 exists s id rt_item,
                   dict_get "name" x = Some (JStr s)
                   /\ s <> ""
                   /\ In (id, rt_item)
                        (("blank", [("name", JObj [("en", JStr "")])])
                           :: three_items)
                   /\ english (fun _ => "") "name" rt_item = JStr s) out.
Proof.
  eexists. eexists. split; [vm_compute; reflexivity|].
  eapply (main_output_names (fun _ => "")
            (("blank", [("name", JObj [("en", JStr "")])]) :: three_items) []).
  reflexivity.
Defined.

Lemma find_existing_item_empty_index (name : json)
  (existing : option (dict json)) :
  find_existing_item name [] = Ok existing -> existing = None.
Proof.
  unfold find_existing_item. destruct (normalize_name name); [|discriminate].
  cbn. intros H. now injection H as <-.
Qed.

Lemma merge_loop_empty_index (py_repr : json -> string) (tbl : dict string)
  (l : dict (dict json)) :
  forall merged_items st merged_items' st',
    fold_left (merge_step py_repr tbl []) l (Ok (merged_items, st))
    = Ok (merged_items', st') ->
    updated st' = updated st.
Proof.
  induction l as [|entry l IH]; intros m st m' st'.
  - cbn. intros H. now injection H as <- <-.
  - cbn [fold_left].
    destruct (merge_step py_repr tbl [] (Ok (m, st)) entry)
      as [[m1 st1]|] eqn:Hstep; [|rewrite merge_step_raised; discriminate].
    intros Hfold. rewrite (IH _ _ _ _ Hfold).
    apply merge_step_inv in Hstep
      as [(_ & _ & ->)|(existing & merged & _ & Hf & _ & _ & ->)];
      [reflexivity|].
    now rewrite (find_existing_item_empty_index _ _ Hf).
Qed.

(** X27: a run on an empty local catalog updates nothing: every record of
    the output is counted as added. *)
Theorem main_first_run (py_repr : json -> string)
  (rt_items : dict (dict json)) (out : list (dict json)) (st : stats) :
  main py_repr rt_items [] = Ok (out, st) ->
  updated st = 0 /\ added st = List.length out.
Proof.
  intros H. apply main_inv in H as (tbl & index & merged & _ & Hidx & Hm & Hs).
  cbn in Hidx. injection Hidx as <-.
  pose proof (merge_loop_counts _ _ _ _ _ _ _ _ Hm) as [Hc _].
  apply merge_loop_empty_index in Hm.
  apply sort_by_name_perm, Permutation_length in Hs. cbn in *. lia.
Qed.

Lemma main_first_run_witness :
  exists out st,
    main (fun _ => "") three_items [] = Ok (out, st)
    /\ updated st = 0 /\ added st = List.length out.
Proof.
  eexists. eexists. split; [vm_compute; reflexivity|].
  apply (main_first_run (fun _ => "") three_items). reflexivity.
Defined.

(** The table after the loop of phase 2, read key by key. *)
Lemma id_to_name_lookup (py_repr : json -> string) (l : dict (dict json)) :
  forall acc,
    NoDup (map fst l) ->
    forall id,
      dict_get id (fold_left (id_to_name_step py_repr) l acc) =
      match dict_get id l with
      | Some item =>
          if truthy (english py_repr "name" item)
          then Some (english py_repr "name" item)
          else dict_get id acc
      | None => dict_get id acc
      end.
Proof.
  induction l as [|[id0 item0] l IH]; intros acc Hnd id; [reflexivity|].
  cbn [fold_left map fst] in *.
  inversion Hnd as [|? ? Hnotin Hnd']; subst.
  rewrite (IH _ Hnd' id). cbn [dict_get id_to_name_step].
  destruct (String.eqb_spec id0 id) as [->|Hne].
  - assert (Hl : dict_get id l = None).
    { destruct (dict_get id l) eqn:E; [|reflexivity].
      exfalso. apply Hnotin. apply dict_get_in in E.
      apply in_map_iff. now exists (id, d). }
    rewrite Hl. destruct (truthy (english py_repr "name" item0));
      [apply dict_get_set_same|reflexivity].
  - assert (Hacc : dict_get id
                     (if truthy (english py_repr "name" item0)
                      then dict_set id0 (english py_repr "name" item0) acc
                      else acc) = dict_get id acc).
    { destruct (truthy _); [now apply dict_get_set_other|reflexivity]. }
    now rewrite Hacc.
Qed.

Lemma display_names_lookup (tbl : dict json) :
  forall names,
    display_names tbl = Ok names ->
    forall id,
      dict_get id names =
      match dict_get id tbl with
      | Some (JStr s) => Some s
      | _ => None
      end.
Proof.
  induction tbl as [|[k v] tbl IH]; intros names.
  - cbn. intros H id. now injection H as <-.
  - cbn [display_names]. destruct v as [| | | |s| |]; try discriminate.
    destruct (display_names tbl) as [rest|]; [|discriminate].
    cbn [bind]. intros H id. injection H as <-. cbn [dict_get].
    destruct (String.eqb k id); [reflexivity|]. now apply IH.
Qed.

(** X28: with distinct raw ids, the table of phase 2 holds under each id
    the English name of its raw record when that name is truthy, and nothing
    else.  When all its values are strings, [id_to_display_name] gives the
    name of every named record, and for an id without a record or with an
    unnamed record what it gives on an empty table. *)
Theorem id_to_name_table (py_repr : json -> string)
  (rt_items : dict (dict json)) :
  NoDup (map fst rt_items) ->
  (forall id,
      dict_get id (fold_left (id_to_name_step py_repr) rt_items []) =
      match dict_get id rt_items with
      | Some item =>
          if truthy (english py_repr "name" item)
          then Some (english py_repr "name" item)
          else None
      | None => None
      end)
  /\ forall names,
       display_names (fold_left (id_to_name_step py_repr) rt_items [])
       = Ok names ->
       (forall id item s,
           dict_get id rt_items = Some item ->
           english py_repr "name" item = JStr s -> s <> "" ->
           id_to_display_name id names = s)
       /\ (forall id,
             dict_get id rt_items = None
             \/ (exists item,
                    dict_get id rt_items = Some item
                    /\ truthy (english py_repr "name" item) = false) ->
             id_to_display_name id names = id_to_display_name id []).
Proof.
  intros Hnd.
  pose proof (id_to_name_lookup py_repr rt_items [] Hnd) as Htbl.
  cbn [dict_get] in Htbl. split; [exact Htbl|].
  intros names Hnames.
  pose proof (display_names_lookup _ _ Hnames) as Hlookup.
  unfold id_to_display_name. split.
  - intros id item s Hget Hname Hne.
    rewrite Hlookup, Htbl, Hget, Hname. destruct s; [contradiction|reflexivity].
  - intros id [Hget|(item & Hget & Ht)]; rewrite Hlookup, Htbl, Hget;
      [reflexivity|]. now rewrite Ht.
Qed.

Lemma id_to_name_table_witness :
  id_to_display_name "apple_seed"
    [("zed_core", "Zed Core"); ("apple_seed", "Apple Seed");
     ("mango", "mango")] = "Apple Seed"
  /\ id_to_display_name "metal_parts"
       [("zed_core", "Zed Core"); ("apple_seed", "Apple Seed");
        ("mango", "mango")] = id_to_display_name "metal_parts" [].
Proof.
  destruct (id_to_name_table (fun _ => "") three_items) as [_ Hnames].
  - repeat constructor; cbn; intuition discriminate.
  - destruct (Hnames [("zed_core", "Zed Core"); ("apple_seed", "Apple Seed");
                      ("mango", "mango")] eq_refl) as [Hnamed Hother].
    split.
    + apply (Hnamed "apple_seed" (named "Apple Seed")); try reflexivity.
      discriminate.
    + apply Hother. now left.
Defined.

(** * Further properties: make_request *)

Lemma backoff_S (k : nat) : backoff (S k) = backoff k ++ [RETRY_BACKOFF ^ k].
Proof. unfold backoff. now rewrite seq_S, map_app. Qed.

(** The loop after [a] transient attempts, each of them not the last for a
    network error. *)
Lemma request_loop_transient (respond : nat -> outcome) (retries : nat) :
  forall n a,
    a + n <= retries ->
    (forall j, a <= j < a + n -> transient (respond j) = true) ->
    (forall j, a <= j < a + n -> respond j = URLError -> j < retries - 1) ->
    forall remaining,
      request_loop respond retries a (n + remaining) (backoff a)
      = request_loop respond retries (a + n) remaining (backoff (a + n)).
Proof.
  induction n as [|n IH]; intros a Hle Htr Hlast remaining.
  - now rewrite Nat.add_0_r.
  - replace (a + S n) with (S a + n) by lia. cbn [Nat.add request_loop].
    pose proof (Htr a ltac:(lia)) as Ha.
    destruct (respond a) as [body|code| |] eqn:Ea; try discriminate.
    + cbn in Ha. rewrite Ha, <- backoff_S.
      replace (a + 1) with (S a) by lia.
      rewrite (IH (S a)); [reflexivity | lia | |];
        intros j Hj; [apply Htr|apply Hlast]; lia.
    + replace (a <? retries - 1) with true
        by (symmetry; apply Nat.ltb_lt, (Hlast a); [lia|assumption]).
      rewrite <- backoff_S. replace (a + 1) with (S a) by lia.
      rewrite (IH (S a)); [reflexivity | lia | |];
        intros j Hj; [apply Htr|apply Hlast]; lia.
Qed.

(** X29: when attempt [k] is the first that is neither rate-limited nor a
    network error, its outcome decides the call: a response is returned, a
    404 gives [None], anything else is raised; before it the function has
    slept 1, 2, ..., 2^(k-1) seconds, and no later attempt is made. *)
Theorem make_request_first_answer (respond : nat -> outcome) (retries k : nat) :
  k < retries ->
  (forall j, j < k -> transient (respond j) = true) ->
  transient (respond k) = false ->
  make_request respond retries
  = (match respond k with
     | Response body => Ok body
     | HTTPError code => if Z.eqb code 404 then Ok JNull else Raised
     | _ => Raised
     end, backoff k).
Proof.
  intros Hk Htr Hans. unfold make_request.
  replace retries with (k + S (retries - S k)) at 2 by lia.
  change (@nil nat) with (backoff 0).
  rewrite (request_loop_transient respond retries k 0);
    [ | lia | intros j Hj; apply Htr; lia | intros j Hj _; lia ].
  cbn [Nat.add request_loop].
  destruct (respond k) as [body|code| |]; try reflexivity; try discriminate.
  cbn in Hans. rewrite Hans. now destruct (Z.eqb code 404).
Qed.

Lemma make_request_first_answer_witness :
  make_request flaky MAX_RETRIES = (Ok (JList []), [1; 2]).
Proof.
  apply (make_request_first_answer flaky MAX_RETRIES 2).
  - vm_compute. lia.
  - intros [|[|j]] Hj; [reflexivity|reflexivity|lia].
  - reflexivity.
Defined.

(** X30: when every attempt is rate-limited or a network error, the call
    makes [retries] attempts and no more; it returns [None] after sleeping
    once more when the last attempt was rate-limited, and raises when the
    last attempt was a network error. *)
Theorem make_request_gives_up (respond : nat -> outcome) (retries : nat) :
  0 < retries ->
  (forall j, j < retries -> transient (respond j) = true) ->
  make_request respond retries
  = match respond (retries - 1) with
    | URLError => (Raised, backoff (retries - 1))
    | _ => (Ok JNull, backoff retries)
    end.
Proof.
  intros Hpos Htr. unfold make_request.
  replace retries with ((retries - 1) + 1) at 2 by lia.
  change (@nil nat) with (backoff 0).
  rewrite (request_loop_transient respond retries (retries - 1) 0);
    [ | lia | intros j Hj; apply Htr; lia | intros j Hj _; lia ].
  cbn [Nat.add request_loop].
  pose proof (Htr (retries - 1) ltac:(lia)) as Hlast.
  destruct (respond (retries - 1)) as [body|code| |]; try discriminate.
  - cbn in Hlast. rewrite Hlast. cbn [request_loop].
    rewrite <- backoff_S. do 2 f_equal. lia.
  - now rewrite Nat.ltb_irrefl.
Qed.

Lemma make_request_gives_up_witness :
  make_request (fun _ => HTTPError 403) MAX_RETRIES = (Ok JNull, [1; 2; 4])
  /\ make_request (fun _ => URLError) MAX_RETRIES = (Raised, [1; 2]).
Proof.
  split.
  - apply (make_request_gives_up (fun _ => HTTPError 403) MAX_RETRIES);
      [vm_compute; lia | reflexivity].
  - apply (make_request_gives_up (fun _ => URLError) MAX_RETRIES);
      [vm_compute; lia | reflexivity].
Defined.
